(** * hms-video-react: ParticipantList, VideoTile and the class styler

    A shallow embedding of the component logic of the library:
    - [StylerResolver]: the class-name resolver every component calls
      ([hmsUiClassParserGenerator], utils/classes);
    - [ParticipantList]: grouping by role, the open/closed list, the
      role-change dialog (components/ParticipantList/ParticipantList.tsx);
    - [VideoTile]: the sizing of a tile (components/VideoTile/index.tsx).

    React hooks are modelled by explicit state passing: a component instance
    is the record of its [useState] cells plus the dependency array each
    [useEffect] saw at the last commit; an event runs its handler, re-renders
    and commits the effects whose dependencies changed.  What the component
    does to the outside world (the [onToggle] prop, the SDK action, the
    toast) is recorded in an output trace. *)

From Stdlib Require Import Floats.PrimFloat.
From stdpp Require Import gmap strings list pretty sorting.

(* ===================================================================== *)
(** * Class-styling resolution *)
(* ===================================================================== *)

Module StylerResolver.

(** A ClassMap sends a slot name to a string of utility classes.  A slot
    the object does not mention reads as [undefined]: here, [None]. *)
Abbreviation ClassMap := (gmap string string).

(** The CSS-compiler handle: the style rules it materialises for a class
    string. *)
Definition Compiler : Type := string → list string.

(** The argument object of the generator. *)
Record ParseClassProps := {
  tw : option Compiler;
  classes : ClassMap;
  customClasses : ClassMap;
  defaultClasses : ClassMap;
  tag : string;
}.

(** What one resolver instance remembers between lookups: the slots it
    has already compiled, and the rules materialised so far. *)
Record ResolverState := {
  memo : gmap string string;
  sheet : list string;
}.

Definition initialState : ResolverState := {| memo := ∅; sheet := [] |}.

(** Modelled from the spec: [hmsUiClassParserGenerator] lives in
    utils/classes, which is not among the sources; only its call sites
    are.  The three maps are merged into a single lookup table, the
    caller's entries shadowing the custom ones and those shadowing the
    defaults. *)
Definition mergedClasses (p : ParseClassProps) : ClassMap :=
  classes p ∪ customClasses p ∪ defaultClasses p.

(** Modelled from the spec: a slot that no map defines resolves to the
    empty string. *)
Definition resolveClass (p : ParseClassProps) (slot : string) : string :=
  default "" (mergedClasses p !! slot).

(** Modelled from the spec: the styler [slot → className] of utils/classes.
    With a compiler handle the resolved string is passed through the
    compiler before it is returned, once per slot and resolver instance. *)
Definition styler (p : ParseClassProps) (slot : string)
    (st : ResolverState) : string * ResolverState :=
  match tw p with
  | None => (resolveClass p slot, st)
  | Some compile =>
      match memo st !! slot with
      | Some c => (c, st)
      | None =>
          let c := resolveClass p slot in
          (c, {| memo := <[slot := c]> (memo st);
                 sheet := sheet st ++ compile c |})
      end
  end.

(** A render looks up several slots in a row on the same instance. *)
Fixpoint lookups (p : ParseClassProps) (slots : list string)
    (st : ResolverState) : list string * ResolverState :=
  match slots with
  | [] => ([], st)
  | slot :: rest =>
      let '(c, st1) := styler p slot st in
      let '(cs, st2) := lookups p rest st1 in
      (c :: cs, st2)
  end.

(** The precedence of the specification, written out: caller, then
    custom, then default, then the empty string. *)
Definition precedence (default custom caller : ClassMap)
    (slot : string) : string :=
  match caller !! slot with
  | Some c => c
  | None =>
      match custom !! slot with
      | Some c => c
      | None =>
          match default !! slot with
          | Some c => c
          | None => ""
          end
      end
  end.

(** The memo only ever holds what resolution gives. *)
Definition memoSound (p : ParseClassProps) (st : ResolverState) : Prop :=
  ∀ slot c, memo st !! slot = Some c → c = resolveClass p slot.

End StylerResolver.

(* ===================================================================== *)
(** * The participant list *)
(* ===================================================================== *)

Module ParticipantList.

(** ** Data read from the SDK store *)

Record HMSPeer := {
  id : string;
  name : string;
  roleName : option string;      (* [roleName?: string] *)
}.

Record HMSPeerWithMuteStatus := {
  peer : HMSPeer;
  isAudioEnabled : bool;
}.

Record HMSPermissions := { changeRole : bool }.

Record HMSRole := { permissions : option HMSPermissions }.

#[global] Instance HMSPeer_eq_dec : EqDecision HMSPeer.
Proof. solve_decision. Defined.

#[global] Instance HMSPeerWithMuteStatus_eq_dec :
  EqDecision HMSPeerWithMuteStatus.
Proof. solve_decision. Defined.

(** ** Plain objects used as maps

    [groupBy] accumulates into a fresh object [{}].  Its own properties
    are kept here in creation order, which is what [Object.keys] needs. *)

Definition JSObject (V : Type) : Type := list (string * V).

Fixpoint getProp {V} (o : JSObject V) (key : string) : option V :=
  match o with
  | [] => None
  | (k, v) :: rest => if decide (k = key) then Some v else getProp rest key
  end.

Definition hasOwnProperty {V} (o : JSObject V) (key : string) : bool :=
  bool_decide (is_Some (getProp o key)).

(** [o[key] = v]: an own property keeps its place, a new one goes last. *)
Fixpoint baseAssignValue {V} (o : JSObject V) (key : string) (v : V)
    : JSObject V :=
  match o with
  | [] => [(key, v)]
  | (k, w) :: rest =>
      if decide (k = key) then (k, v) :: rest
      else (k, w) :: baseAssignValue rest key v
  end.

(** [o[key].push(x)] on the array stored under an own property. *)
Fixpoint pushAt {A} (o : JSObject (list A)) (key : string) (x : A)
    : JSObject (list A) :=
  match o with
  | [] => []
  | (k, xs) :: rest =>
      if decide (k = key) then (k, xs ++ [x]) :: rest
      else (k, xs) :: pushAt rest key x
  end.

(** A value used as a property key is converted to a string; [undefined]
    becomes the key ["undefined"]. *)
Definition toPropertyKey (v : option string) : string :=
  match v with
  | Some s => s
  | None => "undefined"
  end.

(** lodash [groupBy]: one pass over the collection, left to right. *)
Definition groupByStep {A} (iteratee : A → option string)
    (result : JSObject (list A)) (value : A) : JSObject (list A) :=
  let key := toPropertyKey (iteratee value) in
  if hasOwnProperty result key then pushAt result key value
  else baseAssignValue result key [value].

Definition groupBy {A} (collection : list A) (iteratee : A → option string)
    : JSObject (list A) :=
  foldl (groupByStep iteratee) [] collection.

(** ** [Object.keys]

    Own keys that are array indices come first, in ascending numeric
    order; the other string keys follow in creation order. *)

Definition digitValue (c : Ascii.ascii) : option N :=
  let n := Ascii.N_of_ascii c in
  if ((48 <=? n) && (n <=? 57))%N then Some (n - 48)%N else None.

Fixpoint parseDigits (s : string) (acc : N) : option N :=
  match s with
  | EmptyString => Some acc
  | String c rest =>
      match digitValue c with
      | Some d => parseDigits rest (acc * 10 + d)%N
      | None => None
      end
  end.

(** A key is an array index when it is the canonical decimal form of an
    integer below 2^32 - 1. *)
Definition arrayIndex (key : string) : option N :=
  match parseDigits key 0 with
  | Some n =>
      if decide (pretty n = key ∧ (n < 4294967295)%N) then Some n else None
  | None => None
  end.

Definition isArrayIndex (key : string) : Prop := is_Some (arrayIndex key).

Definition indexLe (a b : string) : Prop :=
  (default 0 (arrayIndex a) ≤ default 0 (arrayIndex b))%N.

#[global] Instance isArrayIndex_dec key : Decision (isArrayIndex key).
Proof. unfold isArrayIndex. apply _. Defined.

#[global] Instance indexLe_dec : RelDecision indexLe.
Proof. intros a b. unfold indexLe. apply _. Defined.

Definition orderKeys (created : list string) : list string :=
  merge_sort indexLe (filter isArrayIndex created)
  ++ filter (λ k, ¬ isArrayIndex k) created.

Definition ObjectKeys {V} (o : JSObject V) : list string :=
  orderKeys (o.*1).

(** ** The groups of a render *)

Definition roleOf (participant : HMSPeerWithMuteStatus) : option string :=
  roleName (peer participant).

Definition rolesMap (participantList : list HMSPeerWithMuteStatus)
    : JSObject (list HMSPeerWithMuteStatus) :=
  groupBy participantList roleOf.

Definition roles (participantList : list HMSPeerWithMuteStatus)
    : list string :=
  ObjectKeys (rolesMap participantList).

(** One rendered section of the menu: the header text and the rows under
    it, in render order. *)
Record MenuSection := {
  sectionKey : string;
  header : string;
  rows : list HMSPeerWithMuteStatus;
}.

Definition sectionLabel (role : string) : string :=
  if decide (role = "undefined") then "Unknown" else role.

(** [rolesMap[role].length] needs the group to exist: [None] stands for
    the TypeError a missing group would raise. *)
Definition renderSection (groups : JSObject (list HMSPeerWithMuteStatus))
    (role : string) : option MenuSection :=
  match getProp groups role with
  | Some group =>
      Some {| sectionKey := role;
              header := sectionLabel role
                        +:+ "(" +:+ pretty (length group) +:+ ")";
              rows := group |}
  | None => None
  end.

(** The sections under the menu root, as shown while the list is open. *)
Definition renderMenu (participantList : list HMSPeerWithMuteStatus)
    : option (list MenuSection) :=
  mapM (renderSection (rolesMap participantList)) (roles participantList).

Definition mkPeer (i : string) (r : option string) : HMSPeerWithMuteStatus :=
  {| peer := {| id := i; name := i; roleName := r |};
     isAudioEnabled := true |}.

(** ** What falls under a key *)

Section GroupKeys.
Context {A : Type} (iteratee : A → option string).

Definition keyOf (a : A) : string := toPropertyKey (iteratee a).

(** The members of a collection that fall under a key, in the order
    of the collection. *)
Definition membersOf (key : string) (collection : list A) : list A :=
  filter (λ a, keyOf a = key) collection.

Definition groupOf (key : string) (collection : list A)
    : option (list A) :=
  match membersOf key collection with
  | [] => None
  | group => Some group
  end.

End GroupKeys.

(** *** The rendered groups *)

Definition roleKey (participant : HMSPeerWithMuteStatus) : string :=
  keyOf roleOf participant.

(** The section a role key renders to, given the whole list. *)
Definition sectionOf (participantList : list HMSPeerWithMuteStatus)
    (role : string) : MenuSection :=
  let group := membersOf roleOf role participantList in
  {| sectionKey := role;
     header := sectionLabel role +:+ "(" +:+ pretty (length group) +:+ ")";
     rows := group |}.

(** ** The component instance *)

(** The four [useState] cells of [ParticipantList]. *)
Record Hooks := {
  listOpen : bool;
  selectedPeer : option HMSPeer;
  selectedRole : string;
  forceChange : bool;
}.

Definition initialHooks : Hooks :=
  {| listOpen := false; selectedPeer := None;
     selectedRole := ""; forceChange := false |}.

(** The value a rejected SDK call carries: an [Error] with its message. *)
Record JSError := { message : string }.

(** How the promise returned by [hmsActions.changeRole] settles. *)
Inductive SdkOutcome :=
| Resolved
| Rejected (error : JSError).

(** What the component does to the outside world. *)
Inductive Output :=
| OnToggle (open : bool)
| ChangeRole (peerId role : string) (force : bool)
| Toast (text : string).

(** Props and store values of a render.  [onToggle] records whether the
    optional callback prop is supplied; its calls go to the trace. *)
Record Env := {
  participantListProp : option (list HMSPeerWithMuteStatus);
  onToggle : bool;
  participantsFromStore : list HMSPeerWithMuteStatus;
  roleNames : list string;
  localPeerRole : option HMSRole;
}.

(** ** Handlers

    A handler runs against the pending hook state, appends to the output
    trace, and completes normally or with a thrown error. *)

Inductive Completion (A : Type) :=
| Normal (a : A)
| Throw (error : JSError).
Arguments Normal {A} a.
Arguments Throw {A} error.

Definition Handler (A : Type) : Type :=
  Hooks → Completion A * Hooks * list Output.

#[global] Instance Handler_ret : MRet Handler :=
  λ A a h, (Normal a, h, []).

#[global] Instance Handler_bind : MBind Handler :=
  λ A B k m h,
    match m h with
    | (Normal a, h1, out1) =>
        let '(r, h2, out2) := k a h1 in (r, h2, out1 ++ out2)
    | (Throw error, h1, out1) => (Throw error, h1, out1)
    end.

(** [try { body } catch (error) { handler }] *)
Definition tryCatch {A} (body : Handler A) (handler : JSError → Handler A)
    : Handler A :=
  λ h,
    match body h with
    | (Normal a, h1, out1) => (Normal a, h1, out1)
    | (Throw error, h1, out1) =>
        let '(r, h2, out2) := handler error h1 in (r, h2, out1 ++ out2)
    end.

Definition emit (o : Output) : Handler unit :=
  λ h, (Normal (), h, [o]).

(** The state setters; each takes an updater, a constant being [λ _, v]. *)
Definition setListOpen (f : bool → bool) : Handler unit :=
  λ h, (Normal (),
        {| listOpen := f (listOpen h); selectedPeer := selectedPeer h;
           selectedRole := selectedRole h; forceChange := forceChange h |},
        []).

Definition setSelectedPeer (v : option HMSPeer) : Handler unit :=
  λ h, (Normal (),
        {| listOpen := listOpen h; selectedPeer := v;
           selectedRole := selectedRole h; forceChange := forceChange h |},
        []).

Definition setSelectedRole (v : string) : Handler unit :=
  λ h, (Normal (),
        {| listOpen := listOpen h; selectedPeer := selectedPeer h;
           selectedRole := v; forceChange := forceChange h |},
        []).

Definition setForceChange (f : bool → bool) : Handler unit :=
  λ h, (Normal (),
        {| listOpen := listOpen h; selectedPeer := selectedPeer h;
           selectedRole := selectedRole h; forceChange := f (forceChange h) |},
        []).

(** [await hmsActions.changeRole(peerId, role, force)]: the request goes
    out, then the promise settles. *)
Definition hmsActions_changeRole (sdk : SdkOutcome)
    (peerId role : string) (force : bool) : Handler unit :=
  λ h, (match sdk with
        | Resolved => Normal ()
        | Rejected error => Throw error
        end, h, [ChangeRole peerId role force]).

Definition toast (text : string) : Handler unit := emit (Toast text).

Definition handleClick : Handler unit := setListOpen negb.

Definition handleClose : Handler unit := setListOpen (λ _, false).

Definition handleRoleChangeClose : Handler unit :=
  setSelectedPeer None ;; setForceChange (λ _, false).

Definition handleInputChange (value : string) : Handler unit :=
  setSelectedRole value.

(** [localPeerRole?.permissions?.changeRole], as a truth value. *)
Definition changeRolePermitted (env : Env) : bool :=
  match localPeerRole env with
  | Some role =>
      match permissions role with
      | Some perms => changeRole perms
      | None => false
      end
  | None => false
  end.

(** [handleSaveSettings] reads [selectedPeer], [selectedRole] and
    [forceChange] from the render that created it ([render]); its setters
    act on the pending state.  The [await] is its only suspension point
    and what follows it writes constants, so one invocation is run here
    to its completion. *)
Definition handleSaveSettings (env : Env) (render : Hooks)
    (sdk : SdkOutcome) : Handler unit :=
  match selectedPeer render with
  | None => mret ()
  | Some p =>
      if bool_decide (selectedRole render = "")
         || negb (changeRolePermitted env)
      then mret ()
      else
        (if bool_decide (roleName p ≠ Some (selectedRole render))
         then tryCatch
                (hmsActions_changeRole sdk (id p) (selectedRole render)
                   (forceChange render))
                (λ error, toast (message error))
         else mret ()) ;;
        setSelectedPeer None ;;
        setForceChange (λ _, false)
  end.

(** The closure handed to a row as [onUserSettingsClick]. *)
Definition onUserSettingsClick (participant : HMSPeerWithMuteStatus)
    : Handler unit :=
  setSelectedPeer (Some (peer participant)) ;;
  setSelectedRole (default "" (roleName (peer participant))).

(** The checkbox's [onChange]. *)
Definition onForceChange : Handler unit := setForceChange negb.

(** ** What a render shows *)

Definition participants (env : Env) : list HMSPeerWithMuteStatus :=
  default (participantsFromStore env) (participantListProp env).

Definition dialogOpen (render : Hooks) : bool :=
  bool_decide (is_Some (selectedPeer render)).

Definition selectDisabled (env : Env) : bool :=
  negb (changeRolePermitted env).

Definition checkboxDisabled (render : Hooks) : bool :=
  match selectedPeer render with
  | None => true
  | Some p =>
      bool_decide (selectedRole render = "")
      || bool_decide (Some (selectedRole render) = roleName p)
  end.

(** ** Events *)

(** [UserSettingsClick] stands for a row calling the [onUserSettingsClick]
    closure it is handed; [ConfirmClick] carries how the SDK call would
    settle if the handler makes it. *)
Inductive Event :=
| ToggleClick                                     (* the list button *)
| ClickAway                                       (* ClickAwayListener *)
| UserSettingsClick (participant : HMSPeerWithMuteStatus)
| RoleSelectChange (value : string)               (* the select *)
| ForceChangeToggle                               (* the checkbox *)
| DialogClose                        (* close button, dialog onClose *)
| ConfirmClick (sdk : SdkOutcome).                (* the Confirm button *)

(** An event can only come from an element that is rendered and not
    disabled. *)
Definition rendered (env : Env) (render : Hooks) (e : Event) : bool :=
  match e with
  | ToggleClick | ClickAway => true
  | UserSettingsClick participant =>
      listOpen render && bool_decide (participant ∈ participants env)
  | RoleSelectChange value =>
      dialogOpen render && negb (selectDisabled env)
      && bool_decide (value = "" ∨ value ∈ roleNames env)
  | ForceChangeToggle => dialogOpen render && negb (checkboxDisabled render)
  | DialogClose | ConfirmClick _ => dialogOpen render
  end.

Definition handlerOf (env : Env) (render : Hooks) (e : Event)
    : Handler unit :=
  match e with
  | ToggleClick => handleClick
  | ClickAway => handleClose
  | UserSettingsClick participant => onUserSettingsClick participant
  | RoleSelectChange value => handleInputChange value
  | ForceChangeToggle => onForceChange
  | DialogClose => handleRoleChangeClose
  | ConfirmClick sdk => handleSaveSettings env render sdk
  end.

(** ** Render and commit *)

(** The hook cells, and the dependency array [[listOpen]] the [onToggle]
    effect saw at the last commit ([None] before the first one). *)
Record Instance := {
  hooks : Hooks;
  onToggleDeps : option bool;
}.

Definition depsChanged (prev : option bool) (next : bool) : bool :=
  match prev with
  | None => true
  | Some b => negb (eqb b next)
  end.

(** [useEffect(() => { if (onToggle) onToggle(listOpen) }, [listOpen])] *)
Definition commitEffects (env : Env) (inst : Instance)
    : Instance * list Output :=
  let deps := listOpen (hooks inst) in
  if depsChanged (onToggleDeps inst) deps
  then ({| hooks := hooks inst; onToggleDeps := Some deps |},
        if onToggle env then [OnToggle deps] else [])
  else (inst, []).

Definition mount (env : Env) : Instance * list Output :=
  commitEffects env {| hooks := initialHooks; onToggleDeps := None |}.

Definition dispatch (env : Env) (e : Event) (inst : Instance)
    : Instance * list Output :=
  let render := hooks inst in
  if rendered env render e then
    let '(_, h, out) := handlerOf env render e render in
    let '(inst', out') :=
      commitEffects env {| hooks := h; onToggleDeps := onToggleDeps inst |} in
    (inst', out ++ out')
  else (inst, []).

(** After a commit the effect has seen the current [listOpen]. *)
Definition effectSettled (inst : Instance) : Prop :=
  onToggleDeps inst = Some (listOpen (hooks inst)).

(** The instance and the outputs after each event of a sequence. *)
Fixpoint trace (env : Env) (events : list Event) (inst : Instance)
    : list (Instance * list Output) :=
  match events with
  | [] => []
  | e :: rest =>
      let step := dispatch env e inst in
      step :: trace env rest step.1
  end.

(** The instance a mounted component is in after a sequence of events. *)
Definition session (env : Env) (events : list Event) : Instance :=
  foldl (λ inst e, (dispatch env e inst).1) (mount env).1 events.

(** Everything a mounted component outputs over a sequence of events. *)
Definition sessionOutputs (env : Env) (events : list Event) : list Output :=
  (mount env).2 ++ concat (snd <$> trace env events (mount env).1).

Definition onToggleCalls (outputs : list Output) : list bool :=
  omap (λ o, match o with OnToggle b => Some b | _ => None end) outputs.

Definition sdkCalls (outputs : list Output)
    : list (string * string * bool) :=
  omap (λ o, match o with
             | ChangeRole peerId role force => Some (peerId, role, force)
             | _ => None
             end) outputs.

(** The new value at each change in a sequence of values. *)
Fixpoint changes (prev : bool) (values : list bool) : list bool :=
  match values with
  | [] => []
  | v :: rest => (if eqb prev v then [] else [v]) ++ changes v rest
  end.

(** The open/closed transitions of a session, as the new states. *)
Definition transitionsOf (env : Env) (events : list Event) : list bool :=
  changes false
    ((λ step, listOpen (hooks step.1)) <$> trace env events (mount env).1).

(** An actual role change is pending: a peer is selected and the chosen
    target role is non-empty and differs from the peer's current role. *)
Definition roleChangePending (render : Hooks) : Prop :=
  ∃ p, selectedPeer render = Some p
       ∧ selectedRole render ≠ ""
       ∧ roleName p ≠ Some (selectedRole render).

(** ** A small room, for concrete runs *)

Definition alice : HMSPeerWithMuteStatus := mkPeer "a" (Some "host").
Definition bob : HMSPeerWithMuteStatus := mkPeer "b" (Some "guest").
Definition carol : HMSPeerWithMuteStatus := mkPeer "c" None.

Definition roleWith (mayChangeRole : bool) : HMSRole :=
  {| permissions := Some {| changeRole := mayChangeRole |} |}.

Definition room (mayChangeRole : bool) : Env :=
  {| participantListProp := None;
     onToggle := true;
     participantsFromStore := [alice; bob; carol];
     roleNames := ["host"; "guest"];
     localPeerRole := Some (roleWith mayChangeRole) |}.

(** The hook cells while the dialog is open on a peer. *)
Definition dialogOn (participant : HMSPeerWithMuteStatus) (role : string)
    (force : bool) : Hooks :=
  {| listOpen := true; selectedPeer := Some (peer participant);
     selectedRole := role; forceChange := force |}.

End ParticipantList.

(* ===================================================================== *)
(** * The video tile *)
(* ===================================================================== *)

Module VideoTile.

(** Numbers are IEEE 754 doubles, with their own division, product and
    equality ([NaN] differs from itself). *)
Local Open Scope float_scope.
Local Set Warnings "-inexact-float".

Inductive DisplayShape := circle | rectangle.
Inductive VideoSource := screen | camera | canvas.
Inductive ObjectFit := contain | cover.
Inductive AudioLevelDisplayType := border | inlineWave | inlineCircle.

#[global] Instance DisplayShape_eq_dec : EqDecision DisplayShape.
Proof. solve_decision. Defined.
#[global] Instance VideoSource_eq_dec : EqDecision VideoSource.
Proof. solve_decision. Defined.
#[global] Instance AudioLevelDisplayType_eq_dec :
  EqDecision AudioLevelDisplayType.
Proof. solve_decision. Defined.

Record AspectRatio := {
  width : float;
  height : float;
}.

(** The text of a template literal [`${n}px`]; interpolating [undefined]
    gives ["undefinedpx"]. *)
Inductive Pixels :=
| Px (n : float)
| PxUndefined.

Definition px (v : option float) : Pixels :=
  match v with
  | Some n => Px n
  | None => PxUndefined
  end.

(** Truth value of an optional boolean prop and of an optional number:
    [undefined], [false], [0] and [NaN] are falsy. *)
Definition truthy (b : option bool) : bool := default false b.

Definition truthyNumber (x : option float) : bool :=
  match x with
  | Some n => negb (PrimFloat.eqb n 0 || negb (PrimFloat.eqb n n))
  | None => false
  end.

(** ** The inner [Video] component *)

Module Video.

Record Props := {
  objectFit : option ObjectFit;
  isSquareOrCircle : option bool;
  height : option float;
  aspectRatio : option AspectRatio;
  isLocal : option bool;
  videoSource : option VideoSource;
  isAudioMuted : option bool;
  showAudioLevel : option bool;
  audioLevel : option float;
  audioLevelDisplayType : option AudioLevelDisplayType;
}.

(** The inline style of the [video] element; the box shadow is kept as
    its two blur radii. *)
Record CSSProperties := {
  styleObjectFit : option ObjectFit;
  styleWidth : Pixels;
  styleTransform : option string;
  styleBoxShadow : option (Pixels * Pixels);
}.

(** [getVideoStyles], with the default parameters [height = 1] and
    [aspectRatio = { width: 16, height: 9 }] of the component. *)
Definition getVideoStyles (props : Props) : CSSProperties :=
  let height := default 1 (height props) in
  let aspectRatio := default {| width := 16; VideoTile.height := 9 |}
                             (aspectRatio props) in
  {| styleObjectFit := objectFit props;
     styleWidth :=
       if truthy (isSquareOrCircle props)
       then Px height
       else Px (width aspectRatio / VideoTile.height aspectRatio * height);
     styleTransform :=
       if truthy (isLocal props)
          && bool_decide (videoSource props = Some camera)
       then Some "scale(-1, 1)"
       else None;
     styleBoxShadow :=
       if negb (truthy (isAudioMuted props))
          && truthy (showAudioLevel props)
          && truthyNumber (audioLevel props)
          && bool_decide (audioLevelDisplayType props = Some border)
       then Some (Px (0.12 * default 0 (audioLevel props)),
                  Px (0.8 * default 0 (audioLevel props)))
       else None |}.

End Video.

(** ** The tile *)

(** The identity of an object handed to a render: one the caller holds,
    or the object literal a default parameter allocates in a given render. *)
Inductive Ref :=
| Supplied (address : positive)
| Literal (render : nat).

#[global] Instance Ref_eq_dec : EqDecision Ref.
Proof. solve_decision. Defined.

Record VideoTileProps := {
  stream : Ref;
  isLocal : option bool;
  videoSource : option VideoSource;
  audioLevel : option float;
  isAudioMuted : option bool;
  showAudioLevel : option bool;
  objectFit : option ObjectFit;
  aspectRatio : option (Ref * AspectRatio);
  displayShape : option DisplayShape;
  audioLevelDisplayType : option AudioLevelDisplayType;
}.

(** The dependency array [[stream, aspectRatio, displayShape]]: objects
    are compared by identity, the shape by value. *)
Record Deps := {
  depStream : Ref;
  depAspectRatio : Ref;
  depDisplayShape : DisplayShape;
}.

#[global] Instance Deps_eq_dec : EqDecision Deps.
Proof. solve_decision. Defined.

(** The [height] cell ([undefined] once a measurement found no parent),
    the dependencies of the last commit, and the number of renders so far. *)
Record Instance := {
  heightState : option float;
  measureDeps : option Deps;
  renders : nat;
}.

Definition initialInstance : Instance :=
  {| heightState := Some 0; measureDeps := None; renders := 0 |}.

(** The props of a render after their defaults. *)
Definition aspectRatioOf (props : VideoTileProps) (inst : Instance)
    : Ref * AspectRatio :=
  default (Literal (renders inst), {| width := 16; height := 9 |})
          (aspectRatio props).

Definition displayShapeOf (props : VideoTileProps) : DisplayShape :=
  default rectangle (displayShape props).

Definition isSquare (props : VideoTileProps) (inst : Instance) : bool :=
  bool_decide (displayShapeOf props = rectangle)
  && PrimFloat.eqb (width (aspectRatioOf props inst).2)
                   (height (aspectRatioOf props inst).2).

Definition isCircle (props : VideoTileProps) : bool :=
  bool_decide (displayShapeOf props = circle).

Definition isSquareOrCircle (props : VideoTileProps) (inst : Instance)
    : bool :=
  isSquare props inst || isCircle props.

(** What a render returns: the container's inline width and the props
    handed to [Video]. *)
Definition containerWidth (props : VideoTileProps) (inst : Instance)
    : option Pixels :=
  if isSquareOrCircle props inst then Some (px (heightState inst)) else None.

Definition videoProps (props : VideoTileProps) (inst : Instance)
    : Video.Props :=
  {| Video.objectFit := Some (default cover (objectFit props));
     Video.isSquareOrCircle := Some (isSquareOrCircle props inst);
     Video.height := heightState inst;
     Video.aspectRatio := Some (aspectRatioOf props inst).2;
     Video.isLocal := Some (default false (isLocal props));
     Video.videoSource := Some (default camera (videoSource props));
     Video.isAudioMuted := Some (default false (isAudioMuted props));
     Video.showAudioLevel := Some (default true (showAudioLevel props));
     Video.audioLevel := audioLevel props;
     Video.audioLevelDisplayType :=
       Some (default border (audioLevelDisplayType props)) |}.

Definition videoStyle (props : VideoTileProps) (inst : Instance)
    : Video.CSSProperties :=
  Video.getVideoStyles (videoProps props inst).

Definition depsOf (props : VideoTileProps) (inst : Instance) : Deps :=
  {| depStream := stream props;
     depAspectRatio := (aspectRatioOf props inst).1;
     depDisplayShape := displayShapeOf props |}.

(** The height effect runs after the first render and after a render
    whose dependencies are not those of the last commit. *)
Definition measures (props : VideoTileProps) (inst : Instance) : bool :=
  match measureDeps inst with
  | None => true
  | Some last => bool_decide (last ≠ depsOf props inst)
  end.

(** One render and its commit.  [measured] is what
    [parent?.getBoundingClientRect().height] gives at that moment. *)
Definition commit (props : VideoTileProps) (measured : option float)
    (inst : Instance) : Instance :=
  {| heightState := if measures props inst then measured
                    else heightState inst;
     measureDeps := Some (depsOf props inst);
     renders := S (renders inst) |}.

Definition mount (props : VideoTileProps) (measured : option float)
    : Instance :=
  commit props measured initialInstance.

(** A tile for concrete runs; [address] is where its aspect-ratio object
    lives. *)
Definition tile (address : positive) (shape : DisplayShape) (w h : float)
    : VideoTileProps :=
  {| stream := Supplied 1; isLocal := None; videoSource := None;
     audioLevel := None; isAudioMuted := None; showAudioLevel := None;
     objectFit := None;
     aspectRatio := Some (Supplied address, {| width := w; height := h |});
     displayShape := Some shape; audioLevelDisplayType := None |}.

End VideoTile.

(* ===================================================================== *)
(** * The participant list: the rest of the render *)
(* ===================================================================== *)

Module ParticipantListView.
Import ParticipantList.

(** ** The list button and the menu under it *)

Inductive CaratIcon := UpCaratIcon | DownCaratIcon.

(** What the click-away root shows: the slot styling the button, the
    button text [{participantList?.length} in room], the carat, and the
    menu, which is rendered only while the list is open. *)
Record ListView := {
  buttonSlot : string;
  buttonText : string;
  carat : CaratIcon;
  menu : option (list MenuSection);
}.

(** [None] stands for a render that throws. *)
Definition renderList (env : Env) (render : Hooks) : option ListView :=
  let participantList := participants env in
  match (if listOpen render
         then Some <$> renderMenu participantList
         else Some None) with
  | Some shown =>
      Some {| buttonSlot := if listOpen render then "buttonOpen"
                            else "buttonClosed";
              buttonText := pretty (length participantList) +:+ " in room";
              carat := if listOpen render then UpCaratIcon
                       else DownCaratIcon;
              menu := shown |}
  | None => None
  end.

(** ** Vocabulary for the properties *)

(** The keys of a list in the order of their first occurrence. *)
Fixpoint firstOccurrences (keys : list string) : list string :=
  match keys with
  | [] => []
  | k :: rest => k :: filter (λ k', k' ≠ k) (firstOccurrences rest)
  end.

Definition toasts (outputs : list Output) : list string :=
  omap (λ o, match o with Toast text => Some text | _ => None end) outputs.

(** The hook cells a closing event leaves. *)
Definition closed (h : Hooks) : Hooks :=
  {| listOpen := listOpen h; selectedPeer := None;
     selectedRole := selectedRole h; forceChange := false |}.

(** While a peer is selected, the target role is empty, or one of the
    available role names, or the peer's own role name. *)
Definition roleChoiceOk (env : Env) (h : Hooks) : Prop :=
  ∀ p, selectedPeer h = Some p →
       selectedRole h = ""
       ∨ selectedRole h ∈ roleNames env
       ∨ roleName p = Some (selectedRole h).

(** While no peer is selected the skip-confirmation flag is off. *)
Definition flagOnlyInDialog (h : Hooks) : Prop :=
  selectedPeer h = None → forceChange h = false.

End ParticipantListView.

(* ===================================================================== *)
(** * The video tile: the rest of the render *)
(* ===================================================================== *)

Module VideoTileView.
Import VideoTile.

(** ** The props handed to the default controls *)

Module Controls.

Record Props := {
  label : string;
  isAudioMuted : bool;
  showAudioMuteStatus : bool;
  showGradient : bool;
  allowRemoteMute : bool;
  showAudioLevel : bool;
  audioLevelDisplayType : AudioLevelDisplayType;
  audioLevel : option float;
}.

End Controls.

(** The props of [VideoTile] that only the controls use.  [label] is the
    value of [getVideoTileLabel(peer.displayName, isLocal, videoSource)]. *)
Record ControlsInputs := {
  label : string;
  showAudioMuteStatus : option bool;
  allowRemoteMute : option bool;
}.

(** The [VideoTileControls] element rendered when no [controlsComponent]
    is supplied. *)
Definition controlsProps (inputs : ControlsInputs) (props : VideoTileProps)
    : Controls.Props :=
  {| Controls.label := label inputs;
     Controls.isAudioMuted := default false (isAudioMuted props);
     Controls.showAudioMuteStatus :=
       default true (showAudioMuteStatus inputs);
     Controls.showGradient := negb (isCircle props);
     Controls.allowRemoteMute := default false (allowRemoteMute inputs);
     Controls.showAudioLevel :=
       default true (showAudioLevel props)
       && bool_decide (default border (audioLevelDisplayType props) ≠ border);
     Controls.audioLevelDisplayType :=
       default border (audioLevelDisplayType props);
     Controls.audioLevel := audioLevel props |}.

(** ** Vocabulary for the properties *)

(** The same props with another [aspectRatio]. *)
Definition withAspectRatio (ratio : option (Ref * AspectRatio))
    (props : VideoTileProps) : VideoTileProps :=
  {| stream := stream props; isLocal := isLocal props;
     videoSource := videoSource props; audioLevel := audioLevel props;
     isAudioMuted := isAudioMuted props;
     showAudioLevel := showAudioLevel props; objectFit := objectFit props;
     aspectRatio := ratio; displayShape := displayShape props;
     audioLevelDisplayType := audioLevelDisplayType props |}.

(** A sequence of renders of one tile, each with its props and with what
    the measurement would give at that moment. *)
Definition renderAll (steps : list (VideoTileProps * option float))
    : Instance :=
  foldl (λ inst step, commit step.1 step.2 inst) initialInstance steps.

(** A caller can hand in objects of its own, never the object literal a
    default parameter allocates inside a render. *)
Definition callerHeld (props : VideoTileProps) : Prop :=
  match aspectRatio props with
  | Some (Literal _, _) => False
  | _ => True
  end.

(** The default-parameter literal remembered by the effect, if any, is
    that of an earlier render. *)
Definition literalsPast (inst : Instance) : Prop :=
  ∀ last k, measureDeps inst = Some last →
            depAspectRatio last = Literal k → k < renders inst.

End VideoTileView.

(* ===================================================================== *)
(** * Properties of the class styler *)
(* ===================================================================== *)

Module StylerFacts.
Import StylerResolver.

Lemma resolveClass_precedence p slot :
  resolveClass p slot
  = precedence (defaultClasses p) (customClasses p) (classes p) slot.
Proof.
  unfold resolveClass, mergedClasses, precedence.
  destruct (classes p !! slot) as [c|] eqn:Hk.
  - erewrite lookup_union_Some_l; [done|].
    by erewrite lookup_union_Some_l.
  - destruct (customClasses p !! slot) as [c|] eqn:Hc.
    + erewrite lookup_union_Some_l; [done|].
      rewrite lookup_union_r; done.
    + rewrite lookup_union_r; [done|].
      apply lookup_union_None; done.
Qed.

Lemma memoSound_initial p : memoSound p initialState.
Proof. intros slot c. cbn. by rewrite lookup_empty. Qed.

Lemma styler_sound p slot st :
  memoSound p st →
  (styler p slot st).1 = resolveClass p slot
  ∧ memoSound p (styler p slot st).2.
Proof.
  intros Hm. unfold styler.
  destruct (tw p) as [compile|]; [|done].
  destruct (memo st !! slot) as [c|] eqn:Hs.
  - split; [by apply Hm | done].
  - split; [done|]. intros s c. cbn.
    destruct (decide (slot = s)) as [->|Hne].
    + rewrite lookup_insert_eq. congruence.
    + rewrite lookup_insert_ne; [apply Hm | done].
Qed.

Lemma lookups_sound p slots : ∀ st,
  memoSound p st →
  (lookups p slots st).1 = resolveClass p <$> slots.
Proof.
  induction slots as [|slot rest IH]; intros st Hm; [done|].
  cbn [lookups].
  destruct (styler_sound p slot st Hm) as [Hc Hm1].
  destruct (styler p slot st) as [c st1]. cbn in Hc, Hm1.
  specialize (IH st1 Hm1).
  destruct (lookups p rest st1) as [cs st2]. cbn in IH |- *.
  by rewrite Hc, IH.
Qed.

(** The compiler is run at most once for a slot. *)
Lemma styler_memoised p slot st :
  let st1 := (styler p slot st).2 in
  (styler p slot st1).2 = st1.
Proof.
  unfold styler. destruct (tw p) as [compile|]; [|done].
  destruct (memo st !! slot) as [c|] eqn:Hs; cbn.
  - by rewrite Hs.
  - by rewrite lookup_insert_eq.
Qed.

(** C1: for every default, custom and caller ClassMap, with or without a
    compiler handle, every lookup on a fresh resolver instance, in any
    sequence of lookups, returns the caller's value for the slot if the
    caller defines it, else the custom value, else the default value, else
    the empty string.  The styler is a total function into strings: it
    has no failing case. *)
Theorem styler_resolves_by_precedence :
  ∀ (compiler : option Compiler) (default custom caller : ClassMap)
    (tagName : string) (slots : list string),
    let p := {| tw := compiler; classes := caller;
                customClasses := custom; defaultClasses := default;
                tag := tagName |} in
    (lookups p slots initialState).1
    = precedence default custom caller <$> slots.
Proof.
  intros compiler default custom caller tagName slots p.
  rewrite (lookups_sound p slots initialState (memoSound_initial p)).
  apply list_fmap_ext. intros _ slot _.
  apply resolveClass_precedence.
Qed.

(** The scenario of the specification: the caller's [menuItem] wins. *)
Example styler_menuItem :
  (styler {| tw := None;
             classes := {[ "menuItem" := "my-class" ]};
             customClasses := ∅;
             defaultClasses := {[ "menuItem" := "text-gray-100 group" ]};
             tag := "hmsui-participantList" |}
          "menuItem" initialState).1 = "my-class".
Proof. reflexivity. Qed.

End StylerFacts.

(* ===================================================================== *)
(** * Properties of the participant list *)
(* ===================================================================== *)

Module ParticipantListFacts.
Import ParticipantList.

Example ObjectKeys_order :
  ObjectKeys [("host", 1); ("10", 2); ("undefined", 3); ("2", 4); ("02", 5)]
  = ["2"; "10"; "host"; "undefined"; "02"].
Proof. vm_compute. reflexivity. Qed.

(** The scenario of the specification. *)
Example renderMenu_scenario :
  fmap (M:=list) header
    <$> renderMenu [mkPeer "a" (Some "host"); mkPeer "b" (Some "guest");
                    mkPeer "c" None]
  = Some ["host(1)"; "guest(1)"; "Unknown(1)"].
Proof. vm_compute. reflexivity. Qed.

(** *** Facts about objects used as maps *)

Lemma getProp_keys {V} (o : JSObject V) key :
  key ∈ o.*1 ↔ is_Some (getProp o key).
Proof.
  induction o as [|[k v] rest IH]; cbn.
  - split; [by intros ?%elem_of_nil | by intros [? ?]].
  - destruct (decide (k = key)) as [->|Hne].
    + split; [by eauto | intros _; apply list_elem_of_here].
    + rewrite elem_of_cons, IH.
      split; [intros [?|?]; [congruence | done] | by right].
Qed.

Lemma getProp_baseAssignValue {V} (o : JSObject V) key v key' :
  getProp (baseAssignValue o key v) key'
  = if decide (key = key') then Some v else getProp o key'.
Proof.
  induction o as [|[k w] rest IH]; cbn.
  - done.
  - destruct (decide (k = key)) as [->|Hne]; cbn.
    + destruct (decide (key = key')); done.
    + destruct (decide (k = key')) as [->|Hne'].
      * destruct (decide (key = key')); [congruence | done].
      * done.
Qed.

Lemma keys_baseAssignValue_new {V} (o : JSObject V) key v :
  getProp o key = None →
  (baseAssignValue o key v).*1 = o.*1 ++ [key].
Proof.
  induction o as [|[k w] rest IH]; cbn; [done|].
  destruct (decide (k = key)); [done|].
  intros H. cbn. by rewrite IH.
Qed.

Lemma getProp_pushAt {A} (o : JSObject (list A)) key x key' :
  getProp (pushAt o key x) key'
  = if decide (key = key') then (λ xs, xs ++ [x]) <$> getProp o key
    else getProp o key'.
Proof.
  induction o as [|[k xs] rest IH]; cbn.
  - by destruct (decide (key = key')).
  - destruct (decide (k = key)) as [->|Hne]; cbn.
    + destruct (decide (key = key')); done.
    + destruct (decide (k = key')) as [->|Hne'].
      * destruct (decide (key = key')); [congruence | done].
      * done.
Qed.

Lemma keys_pushAt {A} (o : JSObject (list A)) key x :
  (pushAt o key x).*1 = o.*1.
Proof.
  induction o as [|[k xs] rest IH]; cbn; [done|].
  destruct (decide (k = key)); cbn; [done | by rewrite IH].
Qed.

(** *** What [groupBy] computes *)

Section GroupBy.
Context {A : Type} (iteratee : A → option string).

Lemma groupOf_snoc key collection a :
  groupOf iteratee key (collection ++ [a])
  = if decide (keyOf iteratee a = key)
    then Some (membersOf iteratee key collection ++ [a])
    else groupOf iteratee key collection.
Proof.
  unfold groupOf, membersOf. rewrite filter_app, filter_cons, filter_nil.
  destruct (decide (keyOf iteratee a = key)).
  - by destruct (filter _ collection).
  - by rewrite app_nil_r.
Qed.

Lemma groupBy_snoc collection a :
  groupBy (collection ++ [a]) iteratee
  = groupByStep iteratee (groupBy collection iteratee) a.
Proof. unfold groupBy. by rewrite foldl_app. Qed.

Lemma groupBy_getProp collection key :
  getProp (groupBy collection iteratee) key = groupOf iteratee key collection.
Proof.
  revert key. induction collection as [|a collection IH] using rev_ind;
    intros key; [done|].
  rewrite groupBy_snoc, groupOf_snoc. unfold groupByStep, hasOwnProperty.
  fold (keyOf iteratee a). case_bool_decide as Hown.
  - rewrite getProp_pushAt.
    destruct (decide (keyOf iteratee a = key)) as [<-|Hne].
    + rewrite IH in Hown |- *. unfold groupOf in *.
      destruct (membersOf iteratee (keyOf iteratee a) collection);
        [by destruct Hown | done].
    + apply IH.
  - rewrite getProp_baseAssignValue.
    destruct (decide (keyOf iteratee a = key)) as [<-|Hne]; [|apply IH].
    rewrite IH in Hown. unfold groupOf in Hown.
    destruct (membersOf iteratee (keyOf iteratee a) collection); [done|].
    exfalso. apply Hown. eauto.
Qed.

Lemma groupBy_keys_NoDup collection :
  NoDup (groupBy collection iteratee).*1.
Proof.
  induction collection as [|a collection IH] using rev_ind;
    [apply NoDup_nil_2|].
  rewrite groupBy_snoc. unfold groupByStep, hasOwnProperty.
  case_bool_decide as Hown.
  - by rewrite keys_pushAt.
  - rewrite keys_baseAssignValue_new.
    + apply NoDup_app. split_and!; [done | | apply NoDup_singleton].
      intros k Hk ->%list_elem_of_singleton.
      by apply Hown, getProp_keys.
    + by destruct (getProp _ _); [exfalso; apply Hown; eauto|].
Qed.

Lemma groupOf_is_Some key collection :
  is_Some (groupOf iteratee key collection)
  ↔ ∃ a, a ∈ collection ∧ keyOf iteratee a = key.
Proof.
  unfold groupOf. destruct (membersOf iteratee key collection) as [|a g] eqn:Hg.
  - split; [by intros [? ?]|]. intros (a & Ha & Hk).
    assert (a ∈ membersOf iteratee key collection) as Hin
      by (by apply list_elem_of_filter).
    rewrite Hg in Hin. by apply elem_of_nil in Hin.
  - split; [|by eauto]. intros _. exists a.
    assert (a ∈ membersOf iteratee key collection) as Hin
      by (rewrite Hg; apply list_elem_of_here).
    apply list_elem_of_filter in Hin as [Hk Ha]. by split.
Qed.

Lemma groupOf_Some key collection group :
  groupOf iteratee key collection = Some group →
  group = membersOf iteratee key collection.
Proof.
  unfold groupOf. destruct (membersOf iteratee key collection); naive_solver.
Qed.

End GroupBy.

(** *** [Object.keys] permutes the own keys *)

Lemma orderKeys_Permutation created : orderKeys created ≡ₚ created.
Proof.
  unfold orderKeys. rewrite merge_sort_Permutation.
  apply filter_app_complement.
Qed.

Lemma ObjectKeys_elem_of {V} (o : JSObject V) key :
  key ∈ ObjectKeys o ↔ is_Some (getProp o key).
Proof.
  unfold ObjectKeys. rewrite orderKeys_Permutation. apply getProp_keys.
Qed.

Lemma roles_elem_of participantList key :
  key ∈ roles participantList
  ↔ ∃ p, p ∈ participantList ∧ roleKey p = key.
Proof.
  unfold roles, rolesMap.
  rewrite ObjectKeys_elem_of, groupBy_getProp.
  apply groupOf_is_Some.
Qed.

Lemma roles_NoDup participantList : NoDup (roles participantList).
Proof.
  unfold roles, ObjectKeys. rewrite orderKeys_Permutation.
  apply groupBy_keys_NoDup.
Qed.

Lemma renderMenu_sections participantList :
  renderMenu participantList
  = Some (sectionOf participantList <$> roles participantList).
Proof.
  unfold renderMenu. apply mapM_Some_2, Forall2_fmap_r, Forall_Forall2_diag.
  apply Forall_forall. intros role Hrole.
  apply ObjectKeys_elem_of in Hrole as [group Hgroup].
  unfold renderSection, rolesMap in *. rewrite Hgroup.
  rewrite groupBy_getProp in Hgroup.
  apply groupOf_Some in Hgroup as ->. done.
Qed.

Lemma length_filter_key {B} (f : B → string) (l : list B) (key : string) :
  NoDup (f <$> l) →
  length (filter (λ b, f b = key) l)
  = if decide (key ∈ f <$> l) then 1 else 0.
Proof.
  induction l as [|b l IH]; intros Hnd.
  - cbn. destruct (decide _) as [Hin|]; [by apply elem_of_nil in Hin | done].
  - rewrite fmap_cons in Hnd. apply NoDup_cons in Hnd as [Hb Hnd].
    rewrite filter_cons, fmap_cons. specialize (IH Hnd).
    destruct (decide (f b = key)) as [<-|Hne].
    + cbn [length]. rewrite IH.
      rewrite (decide_False (P := f b ∈ f <$> l)) by done.
      rewrite decide_True; [done | apply list_elem_of_here].
    + rewrite IH. destruct (decide (key ∈ f <$> l)) as [Hin|Hin].
      * rewrite decide_True; [done | by apply list_elem_of_further].
      * rewrite decide_False; [done|].
        intros [?|?]%elem_of_cons; congruence.
Qed.

Lemma roleKey_undefined participant :
  roleKey participant = "undefined"
  ↔ roleOf participant = None ∨ roleOf participant = Some "undefined".
Proof.
  unfold roleKey, keyOf, toPropertyKey.
  destruct (roleOf participant); split; intros H;
    [right | destruct H | left | ]; congruence.
Qed.

(** C2 (as the code has it): every participant list renders without
    error into sections such that (1) no two sections share a key, and the
    keys are exactly the property keys [String(roleName)] of the peers
    present, so an undefined role name and a role literally named
    ["undefined"] share one section; (2) the rows of a section are the
    participants with that key in the order of the participant list, and
    the header is the label followed by the row count; (3) there is
    exactly one section under the key ["undefined"], the one labelled
    ["Unknown"], if and only if some peer's role name is undefined or is
    the string ["undefined"], and there is never more than one. *)
Theorem groups_by_role_key :
  ∀ participantList : list HMSPeerWithMuteStatus,
  ∃ sections : list MenuSection,
    renderMenu participantList = Some sections
    ∧ NoDup (sectionKey <$> sections)
    ∧ (∀ key, key ∈ sectionKey <$> sections
              ↔ ∃ p, p ∈ participantList ∧ roleKey p = key)
    ∧ (∀ s, s ∈ sections →
            rows s = filter (λ p, roleKey p = sectionKey s) participantList
            ∧ header s = sectionLabel (sectionKey s)
                         +:+ "(" +:+ pretty (length (rows s)) +:+ ")")
    ∧ sectionLabel "undefined" = "Unknown"
    ∧ (length (filter (λ s, sectionKey s = "undefined") sections) = 1
       ↔ ∃ p, p ∈ participantList
              ∧ (roleOf p = None ∨ roleOf p = Some "undefined"))
    ∧ length (filter (λ s, sectionKey s = "undefined") sections) ≤ 1.
Proof.
  intros participantList.
  exists (sectionOf participantList <$> roles participantList).
  assert (sectionKey <$> (sectionOf participantList <$> roles participantList)
          = roles participantList) as Hkeys.
  { rewrite <- list_fmap_compose. apply list_fmap_id. }
  pose proof (roles_NoDup participantList) as Hnd.
  split_and!.
  - apply renderMenu_sections.
  - by rewrite Hkeys.
  - intros key. rewrite Hkeys. apply roles_elem_of.
  - intros s (role & -> & _)%list_elem_of_fmap. done.
  - done.
  - rewrite length_filter_key by (by rewrite Hkeys). rewrite Hkeys.
    destruct (decide ("undefined" ∈ roles participantList)) as [Hin|Hin].
    + split; [intros _ | done].
      apply roles_elem_of in Hin as (p & Hp & Hk).
      exists p. split; [done | by apply roleKey_undefined].
    + split; [done|]. intros (p & Hp & Hk). exfalso. apply Hin.
      apply roles_elem_of. exists p. split; [done | by apply roleKey_undefined].
  - rewrite length_filter_key by (by rewrite Hkeys).
    destruct (decide _); lia.
Qed.

(** C2 (as stated) fails: a peer whose role is literally named
    ["undefined"] is rendered under the header ["Unknown(1)"] although no
    peer has an undefined role name. *)
Lemma groups_unknown_without_undefined_role :
  let participantList := [mkPeer "a" (Some "undefined")] in
  renderMenu participantList
  = Some [ {| sectionKey := "undefined"; header := "Unknown(1)";
              rows := participantList |} ]
  ∧ ¬ ∃ p, p ∈ participantList ∧ roleName (peer p) = None.
Proof.
  split; [vm_compute; reflexivity|].
  intros (p & ->%list_elem_of_singleton & Hrole). discriminate Hrole.
Qed.

(** *** Running handlers *)

Ltac run_handler :=
  cbv [handlerOf handleClick handleClose handleRoleChangeClose
       handleInputChange onUserSettingsClick onForceChange handleSaveSettings
       mbind mret Handler_bind Handler_ret tryCatch emit toast
       hmsActions_changeRole setListOpen setSelectedPeer setSelectedRole
       setForceChange].

(** The commit of a render keeps the hook cells. *)
Lemma commitEffects_hooks env inst :
  hooks (commitEffects env inst).1 = hooks inst.
Proof. unfold commitEffects. by destruct (depsChanged _ _). Qed.

(** The hook cells after an event are those the handler leaves. *)
Lemma dispatch_hooks env e inst :
  hooks (dispatch env e inst).1
  = if rendered env (hooks inst) e
    then (handlerOf env (hooks inst) e (hooks inst)).1.2
    else hooks inst.
Proof.
  unfold dispatch. destruct (rendered env (hooks inst) e); [|done].
  destruct (handlerOf env (hooks inst) e (hooks inst)) as [[c h] out].
  pose proof (commitEffects_hooks env
                {| hooks := h; onToggleDeps := onToggleDeps inst |}) as Hh.
  by destruct (commitEffects env _) as [inst' out'].
Qed.

Lemma commitEffects_settled env inst :
  effectSettled (commitEffects env inst).1.
Proof.
  unfold commitEffects, effectSettled, depsChanged.
  destruct inst as [h [b|]]; cbn; [|done].
  destruct (eqb b (listOpen h)) eqn:Hb; cbn; [|done].
  by apply eqb_prop in Hb as ->.
Qed.

(** No handler calls [onToggle] itself. *)
Lemma handlerOf_onToggleCalls env render e h :
  onToggleCalls (handlerOf env render e h).2 = [].
Proof.
  destruct e as [| |participant|value| | |sdk]; run_handler; try done.
  destruct (selectedPeer render) as [p|]; [|done].
  destruct (_ || _); [done|].
  case_bool_decide; [|done]. by destruct sdk.
Qed.

Lemma onToggleCalls_app out1 out2 :
  onToggleCalls (out1 ++ out2) = onToggleCalls out1 ++ onToggleCalls out2.
Proof. apply omap_app. Qed.

(** One event: the callback is called with the new state when the state
    changed, and not at all otherwise. *)
Lemma dispatch_onToggleCalls env e inst :
  effectSettled inst →
  effectSettled (dispatch env e inst).1
  ∧ onToggleCalls (dispatch env e inst).2
    = if onToggle env
      then if eqb (listOpen (hooks inst))
                  (listOpen (hooks (dispatch env e inst).1))
           then [] else [listOpen (hooks (dispatch env e inst).1)]
      else [].
Proof.
  intros Hs. unfold dispatch.
  destruct (rendered env (hooks inst) e).
  - pose proof (handlerOf_onToggleCalls env (hooks inst) e (hooks inst))
      as Hout.
    destruct (handlerOf env (hooks inst) e (hooks inst)) as [[c h] out].
    cbn in Hout.
    pose proof (commitEffects_settled env
                  {| hooks := h; onToggleDeps := onToggleDeps inst |}) as Hs'.
    unfold commitEffects in *. rewrite Hs in *. cbn in *.
    destruct (eqb (listOpen (hooks inst)) (listOpen h)) eqn:Hb;
      cbn in *; rewrite ?Hb.
    + split; [done|]. rewrite app_nil_r, Hout. by destruct (onToggle env).
    + split; [done|]. rewrite omap_app, Hout.
      by destruct (onToggle env).
  - cbn. split; [done|]. rewrite eqb_reflx. by destruct (onToggle env).
Qed.

Lemma trace_onToggleCalls env events : ∀ inst,
  effectSettled inst →
  onToggleCalls (concat (snd <$> trace env events inst))
  = if onToggle env
    then changes (listOpen (hooks inst))
           ((λ step, listOpen (hooks step.1)) <$> trace env events inst)
    else [].
Proof.
  induction events as [|e rest IH]; intros inst Hs; cbn.
  - by destruct (onToggle env).
  - destruct (dispatch_onToggleCalls env e inst Hs) as [Hs' Hcalls].
    rewrite onToggleCalls_app, Hcalls, (IH _ Hs').
    by destruct (onToggle env).
Qed.

Lemma mount_settled env : effectSettled (mount env).1.
Proof. apply commitEffects_settled. Qed.

Lemma session_settled env events : effectSettled (session env events).
Proof.
  unfold session.
  induction events as [|e events IH] using rev_ind; [apply mount_settled|].
  rewrite foldl_app. cbn. by apply dispatch_onToggleCalls.
Qed.

(** *** The open/closed list *)

Lemma mount_outputs env :
  (mount env).2 = if onToggle env then [OnToggle false] else [].
Proof. done. Qed.

(** C3 (as the code has it): with an [onToggle] callback supplied, the
    calls made over any sequence of events are one call [onToggle(false)]
    when the component mounts, followed by exactly one call per open/closed
    transition, carrying the new state, in order; an event that leaves the
    state as it was makes no call.  In particular a click outside while the
    list is closed outputs nothing. *)
Theorem onToggle_mount_then_transitions :
  ∀ (env : Env) (events : list Event),
    onToggle env = true →
    onToggleCalls (sessionOutputs env events)
    = false :: transitionsOf env events
    ∧ (listOpen (hooks (session env events)) = false →
       (dispatch env ClickAway (session env events)).2 = []).
Proof.
  intros env events Hcb. split.
  - unfold sessionOutputs, transitionsOf.
    rewrite onToggleCalls_app, mount_outputs, Hcb.
    rewrite trace_onToggleCalls by apply mount_settled.
    by rewrite Hcb.
  - intros Hclosed.
    pose proof (session_settled env events) as Hs.
    unfold dispatch, rendered. run_handler.
    unfold commitEffects. cbn. rewrite Hs, Hclosed. done.
Qed.

Lemma onToggle_mount_then_transitions_witness :
  onToggle (room true) = true
  ∧ onToggleCalls
      (sessionOutputs (room true) [ClickAway; ToggleClick; ClickAway; ClickAway])
    = [false; true; false].
Proof.
  split; [reflexivity|].
  destruct (onToggle_mount_then_transitions (room true)
              [ClickAway; ToggleClick; ClickAway; ClickAway] eq_refl)
    as [Hcalls _].
  rewrite Hcalls. vm_compute. reflexivity.
Defined.

(** C3 (as stated) fails: mounting the component calls [onToggle(false)]
    although no event has happened and no transition has taken place. *)
Lemma onToggle_called_on_mount :
  onToggleCalls (sessionOutputs (room true) []) = [false]
  ∧ transitionsOf (room true) [] = [].
Proof. split; reflexivity. Qed.

(** C4: from any state of the component, two clicks on the list button
    leave every hook cell, the open/closed state among them, as it was; and
    a freshly mounted list is closed. *)
Theorem toggle_twice_restores :
  ∀ (env : Env) (inst : Instance),
    hooks (dispatch env ToggleClick (dispatch env ToggleClick inst).1).1
    = hooks inst
    ∧ listOpen (hooks (dispatch env ToggleClick inst).1)
      = negb (listOpen (hooks inst))
    ∧ listOpen (hooks (mount env).1) = false.
Proof.
  intros env inst. rewrite !dispatch_hooks. cbn [rendered]. run_handler. cbn.
  rewrite negb_involutive. by destruct inst as [[] ?].
Qed.

(** *** Saving a role change *)

(** C5: when no peer is selected, or the target role is empty, or the
    viewer's role does not grant [changeRole], [handleSaveSettings] returns
    at once: no SDK call, no toast, no state change; and without the
    permission the role select is rendered disabled. *)
Theorem save_guard_is_noop :
  ∀ (env : Env) (render : Hooks) (sdk : SdkOutcome) (h : Hooks),
    selectedPeer render = None
    ∨ selectedRole render = ""
    ∨ changeRolePermitted env = false →
    handleSaveSettings env render sdk h = (Normal (), h, [])
    ∧ (changeRolePermitted env = false → selectDisabled env = true).
Proof.
  intros env render sdk h Hguard. split.
  - unfold handleSaveSettings.
    destruct (selectedPeer render) as [p|]; [|done].
    destruct Hguard as [Hp|[Hr|Hperm]]; [done| |].
    + by rewrite bool_decide_eq_true_2.
    + rewrite Hperm. by rewrite orb_true_r.
  - intros Hperm. unfold selectDisabled. by rewrite Hperm.
Qed.

Lemma save_guard_is_noop_witness :
  (selectedPeer (dialogOn bob "host" true) = None
   ∨ selectedRole (dialogOn bob "host" true) = ""
   ∨ changeRolePermitted (room false) = false)
  ∧ handleSaveSettings (room false) (dialogOn bob "host" true) Resolved
      (dialogOn bob "host" true)
    = (Normal (), dialogOn bob "host" true, [])
  ∧ selectDisabled (room false) = true.
Proof.
  assert (selectedPeer (dialogOn bob "host" true) = None
          ∨ selectedRole (dialogOn bob "host" true) = ""
          ∨ changeRolePermitted (room false) = false) as Hguard
    by (right; right; reflexivity).
  split; [exact Hguard|].
  destruct (save_guard_is_noop (room false) (dialogOn bob "host" true)
              Resolved (dialogOn bob "host" true) Hguard) as [Hsave Hsel].
  split; [exact Hsave | apply Hsel; reflexivity].
Defined.

(** Past the guard, the body of [handleSaveSettings]. *)
Lemma handleSaveSettings_permitted env render sdk p :
  selectedPeer render = Some p →
  selectedRole render ≠ "" →
  changeRolePermitted env = true →
  handleSaveSettings env render sdk
  = ((if bool_decide (roleName p ≠ Some (selectedRole render))
      then tryCatch
             (hmsActions_changeRole sdk (id p) (selectedRole render)
                (forceChange render))
             (λ error, toast (message error))
      else mret ()) ;;
     setSelectedPeer None ;;
     setForceChange (λ _, false)).
Proof.
  intros Hp Hr Hperm. unfold handleSaveSettings.
  rewrite Hp, Hperm. by rewrite bool_decide_eq_false_2.
Qed.

(** C6 (as the code has it): with a peer selected, a non-empty target role
    chosen and the [changeRole] permission granted, [handleSaveSettings]
    closes the dialog; if the target role is the peer's current role it
    outputs nothing, and otherwise it issues exactly one request
    [changeRole(peer id, target role, skip-confirmation flag)]. *)
Theorem save_with_permission :
  ∀ (env : Env) (render : Hooks) (sdk : SdkOutcome) (h : Hooks) (p : HMSPeer),
    selectedPeer render = Some p →
    selectedRole render ≠ "" →
    changeRolePermitted env = true →
    selectedPeer (handleSaveSettings env render sdk h).1.2 = None
    ∧ dialogOpen (handleSaveSettings env render sdk h).1.2 = false
    ∧ (roleName p = Some (selectedRole render) →
       (handleSaveSettings env render sdk h).2 = [])
    ∧ (roleName p ≠ Some (selectedRole render) →
       sdkCalls (handleSaveSettings env render sdk h).2
       = [(id p, selectedRole render, forceChange render)]).
Proof.
  intros env render sdk h p Hp Hr Hperm.
  rewrite (handleSaveSettings_permitted env render sdk p Hp Hr Hperm).
  case_bool_decide as Hrole; run_handler.
  - destruct sdk; cbn; split_and!; done.
  - cbn. split_and!; [done | done | done |].
    intros Hne. by destruct Hne.
Qed.

Lemma save_with_permission_witness :
  (selectedPeer (dialogOn bob "host" true) = Some (peer bob)
   ∧ selectedRole (dialogOn bob "host" true) ≠ ""
   ∧ changeRolePermitted (room true) = true)
  ∧ dialogOpen
      (handleSaveSettings (room true) (dialogOn bob "host" true) Resolved
         (dialogOn bob "host" true)).1.2 = false
  ∧ sdkCalls
      (handleSaveSettings (room true) (dialogOn bob "host" true) Resolved
         (dialogOn bob "host" true)).2
    = [("b", "host", true)].
Proof.
  assert (selectedRole (dialogOn bob "host" true) ≠ "") as Hr by discriminate.
  split; [split_and!; [reflexivity | exact Hr | reflexivity]|].
  destruct (save_with_permission (room true) (dialogOn bob "host" true)
              Resolved (dialogOn bob "host" true) (peer bob)
              eq_refl Hr eq_refl) as (_ & Hclosed & _ & Hcall).
  split; [exact Hclosed | apply Hcall; discriminate].
Defined.

(** C6 (as stated) fails: the viewer's role does not grant [changeRole],
    the dialog is open on a guest and the target role is the preselected
    one, the guest's current role; confirming outputs nothing and changes
    nothing, so the dialog stays open. *)
Lemma save_same_role_without_permission :
  let render := dialogOn bob "guest" false in
  roleName (peer bob) = Some (selectedRole render)
  ∧ handleSaveSettings (room false) render Resolved render
    = (Normal (), render, [])
  ∧ dialogOpen render = true.
Proof. split_and!; reflexivity. Qed.

(** The same through the user interface: open the list, open the dialog on
    the guest, confirm. *)
Example confirm_without_permission_run :
  hooks (session (room false) [ToggleClick; UserSettingsClick bob;
                               ConfirmClick Resolved])
  = dialogOn bob "guest" false.
Proof. vm_compute. reflexivity. Qed.

(** C7: when a submission reaches the SDK and the call rejects, the
    request was issued once, the rejection's message goes to the toast, the
    selected peer is cleared and the skip-confirmation flag reset, and the
    handler completes normally: nothing is thrown on and nothing else is
    output. *)
Theorem save_rejected_toasts_and_closes :
  ∀ (env : Env) (render : Hooks) (error : JSError) (h : Hooks) (p : HMSPeer),
    selectedPeer render = Some p →
    selectedRole render ≠ "" →
    changeRolePermitted env = true →
    roleName p ≠ Some (selectedRole render) →
    handleSaveSettings env render (Rejected error) h
    = (Normal (),
       {| listOpen := listOpen h; selectedPeer := None;
          selectedRole := selectedRole h; forceChange := false |},
       [ChangeRole (id p) (selectedRole render) (forceChange render);
        Toast (message error)]).
Proof.
  intros env render error h p Hp Hr Hperm Hrole.
  rewrite (handleSaveSettings_permitted env render _ p Hp Hr Hperm).
  by rewrite bool_decide_eq_true_2.
Qed.

Lemma save_rejected_toasts_and_closes_witness :
  (selectedPeer (dialogOn bob "host" true) = Some (peer bob)
   ∧ selectedRole (dialogOn bob "host" true) ≠ ""
   ∧ changeRolePermitted (room true) = true
   ∧ roleName (peer bob) ≠ Some (selectedRole (dialogOn bob "host" true)))
  ∧ handleSaveSettings (room true) (dialogOn bob "host" true)
      (Rejected {| message := "not allowed" |}) (dialogOn bob "host" true)
    = (Normal (),
       {| listOpen := true; selectedPeer := None;
          selectedRole := "host"; forceChange := false |},
       [ChangeRole "b" "host" true; Toast "not allowed"]).
Proof.
  assert (selectedRole (dialogOn bob "host" true) ≠ "") as Hr by discriminate.
  assert (roleName (peer bob) ≠ Some (selectedRole (dialogOn bob "host" true)))
    as Hrole by discriminate.
  split; [split_and!; [reflexivity | exact Hr | reflexivity | exact Hrole]|].
  exact (save_rejected_toasts_and_closes (room true) (dialogOn bob "host" true)
           {| message := "not allowed" |} (dialogOn bob "host" true) (peer bob)
           eq_refl Hr eq_refl Hrole).
Defined.

(** *** Closing the dialog *)

(** What [handleSaveSettings] can do to the hook cells: nothing, or the
    reset that closes the dialog. *)
Lemma handleSaveSettings_hooks env render sdk h :
  (handleSaveSettings env render sdk h).1.2 = h
  ∨ (handleSaveSettings env render sdk h).1.2
    = {| listOpen := listOpen h; selectedPeer := None;
         selectedRole := selectedRole h; forceChange := false |}.
Proof.
  unfold handleSaveSettings.
  destruct (selectedPeer render) as [p|]; [|by left].
  destruct (_ || _); [by left|]. right.
  case_bool_decide; run_handler; [by destruct sdk | done].
Qed.

(** An event that closes an open dialog leaves the reset hook cells. *)
Lemma closing_step env e inst :
  dialogOpen (hooks inst) = true →
  dialogOpen (hooks (dispatch env e inst).1) = false →
  hooks (dispatch env e inst).1
  = {| listOpen := listOpen (hooks inst); selectedPeer := None;
       selectedRole := selectedRole (hooks inst); forceChange := false |}.
Proof.
  intros Hopen. rewrite dispatch_hooks.
  destruct (rendered env (hooks inst) e); [|congruence].
  destruct e as [| |participant|value| | |sdk]; cbn [handlerOf].
  1-5: run_handler; cbn; unfold dialogOpen in *; cbn; congruence.
  - done.
  - destruct (handleSaveSettings_hooks env (hooks inst) sdk (hooks inst))
      as [-> | ->]; [congruence | done].
Qed.

(** C8 (as the code has it): whatever event closes an open dialog (the
    close button, the dialog's own close request, a save that gets past
    the guard), the selected peer is cleared and the skip-confirmation
    flag is reset to false, while the pending target role keeps the value
    it had; the explicit close does close an open dialog; and it is
    opening the dialog on a participant that overwrites the target role,
    with that peer's role name or the empty string. *)
Theorem dialog_close_resets_flag_only :
  ∀ (env : Env) (e : Event) (inst : Instance),
    dialogOpen (hooks inst) = true →
    dialogOpen (hooks (dispatch env e inst).1) = false →
    selectedPeer (hooks (dispatch env e inst).1) = None
    ∧ forceChange (hooks (dispatch env e inst).1) = false
    ∧ selectedRole (hooks (dispatch env e inst).1) = selectedRole (hooks inst)
    ∧ dialogOpen (hooks (dispatch env DialogClose inst).1) = false
    ∧ ∀ participant h,
        selectedPeer (onUserSettingsClick participant h).1.2
        = Some (peer participant)
        ∧ selectedRole (onUserSettingsClick participant h).1.2
          = default "" (roleName (peer participant)).
Proof.
  intros env e inst Hopen Hclosed.
  rewrite (closing_step env e inst Hopen Hclosed). cbn.
  split_and!; try done.
  rewrite dispatch_hooks. cbn [rendered]. by rewrite Hopen.
Qed.

Lemma dialog_close_resets_flag_only_witness :
  let inst := session (room true) [ToggleClick; UserSettingsClick bob;
                                   RoleSelectChange "host"; ForceChangeToggle] in
  (dialogOpen (hooks inst) = true
   ∧ dialogOpen (hooks (dispatch (room true) DialogClose inst).1) = false)
  ∧ forceChange (hooks inst) = true
  ∧ forceChange (hooks (dispatch (room true) DialogClose inst).1) = false
  ∧ selectedRole (hooks (dispatch (room true) DialogClose inst).1)
    = selectedRole (hooks inst).
Proof.
  intros inst.
  assert (dialogOpen (hooks inst) = true) as Hopen by (vm_compute; reflexivity).
  assert (dialogOpen (hooks (dispatch (room true) DialogClose inst).1) = false)
    as Hclosed by (vm_compute; reflexivity).
  split; [by split|].
  destruct (dialog_close_resets_flag_only (room true) DialogClose inst
              Hopen Hclosed) as (_ & Hforce & Hrole & _).
  split_and!; [vm_compute; reflexivity | exact Hforce | exact Hrole].
Defined.

(** C8 (as stated) fails: the dialog is open on a guest with ["host"]
    picked as the target role; closing it clears the selected peer and the
    flag, and the pending target role is still ["host"], not the initial
    empty string. *)
Lemma dialog_close_keeps_selectedRole :
  handleRoleChangeClose (dialogOn bob "host" true)
  = (Normal (),
     {| listOpen := true; selectedPeer := None;
        selectedRole := "host"; forceChange := false |},
     [])
  ∧ selectedRole initialHooks = "".
Proof. split; reflexivity. Qed.

(** The same through the user interface: open the list, open the dialog on
    the guest, pick ["host"], tick the checkbox, close the dialog. *)
Example close_after_pick_run :
  hooks (session (room true) [ToggleClick; UserSettingsClick bob;
                              RoleSelectChange "host"; ForceChangeToggle;
                              DialogClose])
  = {| listOpen := true; selectedPeer := None;
       selectedRole := "host"; forceChange := false |}.
Proof. vm_compute. reflexivity. Qed.

(** *** The skip-confirmation checkbox *)

(** C10: the checkbox is rendered disabled whenever no peer is selected,
    or no target role is chosen, or the chosen role is the selected peer's
    current role, and then a checkbox event changes nothing and outputs
    nothing; hence a checkbox event changes the skip-confirmation flag
    only while an actual role change is pending. *)
Theorem checkbox_disabled_unless_pending :
  ∀ (env : Env) (inst : Instance),
    (selectedPeer (hooks inst) = None
     ∨ selectedRole (hooks inst) = ""
     ∨ (∃ p, selectedPeer (hooks inst) = Some p
             ∧ roleName p = Some (selectedRole (hooks inst))) →
     checkboxDisabled (hooks inst) = true
     ∧ dispatch env ForceChangeToggle inst = (inst, []))
    ∧ (forceChange (hooks (dispatch env ForceChangeToggle inst).1)
       ≠ forceChange (hooks inst) →
       roleChangePending (hooks inst)).
Proof.
  intros env inst.
  assert (checkboxDisabled (hooks inst) = false →
          roleChangePending (hooks inst)) as Hpending.
  { unfold checkboxDisabled, roleChangePending.
    destruct (selectedPeer (hooks inst)) as [p|]; [|done].
    intros [Hr Hrole]%orb_false_elim.
    apply bool_decide_eq_false in Hr, Hrole.
    exists p. split_and!; [done | done | congruence]. }
  split.
  - intros Hno.
    assert (checkboxDisabled (hooks inst) = true) as Hdis.
    { destruct (checkboxDisabled (hooks inst)) eqn:Hd; [done|].
      destruct (Hpending eq_refl) as (p & Hp & Hr & Hrole).
      destruct Hno as [Hn|[Hn|(q & Hq & Hn)]]; congruence. }
    split; [done|]. unfold dispatch. cbn [rendered].
    by rewrite Hdis, andb_false_r.
  - intros Hchanged. apply Hpending.
    destruct (checkboxDisabled (hooks inst)) eqn:Hd; [|done].
    destruct Hchanged. unfold dispatch. cbn [rendered].
    by rewrite Hd, andb_false_r.
Qed.

Lemma checkbox_disabled_unless_pending_witness :
  let same := {| hooks := dialogOn bob "guest" false;
                 onToggleDeps := Some true |} in
  let other := {| hooks := dialogOn bob "host" false;
                  onToggleDeps := Some true |} in
  (checkboxDisabled (hooks same) = true
   ∧ dispatch (room true) ForceChangeToggle same = (same, []))
  ∧ (forceChange (hooks (dispatch (room true) ForceChangeToggle other).1)
     ≠ forceChange (hooks other)
     ∧ roleChangePending (hooks other)).
Proof.
  intros same other. split.
  - apply (checkbox_disabled_unless_pending (room true) same).
    right; right. exists (peer bob). split; reflexivity.
  - assert (forceChange
              (hooks (dispatch (room true) ForceChangeToggle other).1)
            ≠ forceChange (hooks other)) as Hchanged
      by (vm_compute; discriminate).
    split; [exact Hchanged|].
    exact (proj2 (checkbox_disabled_unless_pending (room true) other) Hchanged).
Defined.

End ParticipantListFacts.

(* ===================================================================== *)
(** * Properties of the video tile *)
(* ===================================================================== *)

Module VideoTileFacts.
Import VideoTile.
Local Open Scope float_scope.

Lemma isSquareOrCircle_circle props inst :
  displayShapeOf props = circle → isSquareOrCircle props inst = true.
Proof.
  intros Hshape. unfold isSquareOrCircle, isCircle.
  by rewrite bool_decide_eq_true_2, orb_true_r.
Qed.

Lemma isSquareOrCircle_rectangle props inst :
  displayShapeOf props = rectangle →
  isSquareOrCircle props inst
  = PrimFloat.eqb (width (aspectRatioOf props inst).2)
                  (height (aspectRatioOf props inst).2).
Proof.
  intros Hshape. unfold isSquareOrCircle, isSquare, isCircle.
  rewrite Hshape. by rewrite orb_false_r.
Qed.

(** The width [Video] computes from what the tile hands it. *)
Lemma videoStyle_width props inst h :
  heightState inst = Some h →
  Video.styleWidth (videoStyle props inst)
  = if isSquareOrCircle props inst
    then Px h
    else Px (width (aspectRatioOf props inst).2
             / height (aspectRatioOf props inst).2 * h).
Proof.
  intros Hh. unfold videoStyle, videoProps, Video.getVideoStyles. cbn.
  by rewrite Hh.
Qed.

(** The effect runs when a dependency is not the one of the last commit. *)
Lemma measures_changed props inst last :
  measureDeps inst = Some last →
  depStream last ≠ stream props
  ∨ depAspectRatio last ≠ (aspectRatioOf props inst).1
  ∨ depDisplayShape last ≠ displayShapeOf props →
  measures props inst = true.
Proof.
  intros Hlast Hdiff. unfold measures. rewrite Hlast.
  apply bool_decide_eq_true_2. intros ->.
  destruct Hdiff as [H|[H|H]]; by apply H.
Qed.

(** C9: with a measured container height [h] in the [height] cell, the
    width of the video is [h] pixels when the shape is a circle, or a
    rectangle whose aspect-ratio width and height are equal, and the
    container gets the same width; for a rectangle with unequal sides the
    width is [(w / ah) * h] pixels.  The height is measured after the first
    render, and again after any render in which the stream, the aspect-ratio
    object or the shape is not the one of the previous commit. *)
Theorem tile_width_and_measure :
  ∀ (props : VideoTileProps) (inst : Instance) (h : float),
    heightState inst = Some h →
    (displayShapeOf props = circle
     ∨ (displayShapeOf props = rectangle
        ∧ PrimFloat.eqb (width (aspectRatioOf props inst).2)
                        (height (aspectRatioOf props inst).2) = true) →
     Video.styleWidth (videoStyle props inst) = Px h
     ∧ containerWidth props inst = Some (Px h))
    ∧ (displayShapeOf props = rectangle
       ∧ PrimFloat.eqb (width (aspectRatioOf props inst).2)
                       (height (aspectRatioOf props inst).2) = false →
       Video.styleWidth (videoStyle props inst)
       = Px (width (aspectRatioOf props inst).2
             / height (aspectRatioOf props inst).2 * h))
    ∧ (∀ measured, heightState (mount props measured) = measured)
    ∧ (∀ measured last,
         measureDeps inst = Some last →
         depStream last ≠ stream props
         ∨ depAspectRatio last ≠ (aspectRatioOf props inst).1
         ∨ depDisplayShape last ≠ displayShapeOf props →
         heightState (commit props measured inst) = measured).
Proof.
  intros props inst h Hh. split_and!.
  - intros Hshape.
    assert (isSquareOrCircle props inst = true) as Hsq.
    { destruct Hshape as [Hc|[Hr Heq]].
      - by apply isSquareOrCircle_circle.
      - by rewrite isSquareOrCircle_rectangle. }
    rewrite (videoStyle_width props inst h Hh). unfold containerWidth.
    by rewrite Hsq, Hh.
  - intros [Hr Hne].
    rewrite (videoStyle_width props inst h Hh).
    by rewrite isSquareOrCircle_rectangle, Hne.
  - done.
  - intros measured last Hlast Hdiff. unfold commit. cbn.
    by rewrite (measures_changed props inst last Hlast Hdiff).
Qed.

Lemma tile_width_and_measure_witness :
  let wide := tile 2 rectangle 16 9 in
  let square := tile 3 rectangle 4 4 in
  let inst := mount wide (Some 9) in
  heightState inst = Some 9
  ∧ Video.styleWidth (videoStyle wide inst) = Px 16
  ∧ Video.styleWidth (videoStyle square inst) = Px 9
  ∧ containerWidth square inst = Some (Px 9)
  ∧ heightState (commit square (Some 18) inst) = Some 18.
Proof.
  intros wide square inst.
  assert (heightState inst = Some 9) as Hh by reflexivity.
  destruct (tile_width_and_measure wide inst 9 Hh) as (_ & Hwide & _ & _).
  destruct (tile_width_and_measure square inst 9 Hh)
    as (Hsquare & _ & _ & Hmeasure).
  split_and!.
  - exact Hh.
  - rewrite Hwide; [vm_compute; reflexivity | split; reflexivity].
  - apply Hsquare. right. split; reflexivity.
  - apply Hsquare. right. split; reflexivity.
  - apply (Hmeasure (Some 18) (depsOf wide initialInstance)); [reflexivity|].
    right. left. discriminate.
Defined.

(** When the measurement finds no parent the cell holds [undefined]: the
    container width reads ["undefinedpx"] and [Video] falls back to its
    default height of 1. *)
Example unmeasured_circle :
  let props := tile 2 circle 16 9 in
  let inst := mount props None in
  containerWidth props inst = Some PxUndefined
  ∧ Video.styleWidth (videoStyle props inst) = Px 1.
Proof. split; reflexivity. Qed.

(** With no [aspectRatio] prop the default object is a new one in every
    render, so every render measures again. *)
Example default_aspectRatio_measures_again :
  let props := {| stream := Supplied 1; isLocal := None; videoSource := None;
                  audioLevel := None; isAudioMuted := None;
                  showAudioLevel := None; objectFit := None;
                  aspectRatio := None; displayShape := None;
                  audioLevelDisplayType := None |} in
  heightState (commit props (Some 20) (mount props (Some 10))) = Some 20.
Proof. reflexivity. Qed.

End VideoTileFacts.

(* ===================================================================== *)
(** * More properties of the participant list *)
(* ===================================================================== *)

Module ParticipantListExtras.
Import ParticipantList ParticipantListView ParticipantListFacts.

(** *** First occurrences *)

Lemma firstOccurrences_elem_of keys k :
  k ∈ firstOccurrences keys ↔ k ∈ keys.
Proof.
  induction keys as [|k0 keys IH]; cbn; [done|].
  rewrite !elem_of_cons, list_elem_of_filter, IH.
  destruct (decide (k = k0)) as [->|Hne]; [by split; left|].
  split; [intros [?|[_ ?]]; [by left | by right]|].
  intros [?|?]; [done | by right].
Qed.

Lemma firstOccurrences_snoc keys k :
  firstOccurrences (keys ++ [k])
  = if decide (k ∈ keys) then firstOccurrences keys
    else firstOccurrences keys ++ [k].
Proof.
  induction keys as [|k0 keys IH]; cbn.
  - rewrite decide_False; [done | by intros ?%elem_of_nil].
  - rewrite IH. destruct (decide (k ∈ keys)) as [Hin|Hout].
    + rewrite decide_True; [done | by right].
    + rewrite filter_app, filter_cons, filter_nil.
      destruct (decide (k = k0)) as [->|Hne].
      * rewrite decide_False by (by intros []).
        rewrite decide_True by apply list_elem_of_here.
        by rewrite app_nil_r.
      * rewrite decide_True by done.
        rewrite decide_False; [done|].
        by intros [?|?]%elem_of_cons.
Qed.

Section CreationOrder.
Context {A : Type} (iteratee : A → option string).

Lemma groupBy_hasOwnProperty collection key :
  hasOwnProperty (groupBy collection iteratee) key = true
  ↔ key ∈ keyOf iteratee <$> collection.
Proof.
  unfold hasOwnProperty. rewrite bool_decide_eq_true, groupBy_getProp.
  rewrite groupOf_is_Some, list_elem_of_fmap.
  split; intros (a & H1 & H2); exists a; done.
Qed.

(** The keys of the accumulator, in creation order, are the keys of the
    collection in the order of their first occurrence. *)
Lemma groupBy_keys_firstOccurrences collection :
  (groupBy collection iteratee).*1
  = firstOccurrences (keyOf iteratee <$> collection).
Proof.
  induction collection as [|a collection IH] using rev_ind; [done|].
  rewrite groupBy_snoc, fmap_app. cbn [fmap list_fmap].
  rewrite firstOccurrences_snoc. unfold groupByStep.
  fold (keyOf iteratee a).
  destruct (hasOwnProperty (groupBy collection iteratee) (keyOf iteratee a))
    eqn:Hown.
  - apply groupBy_hasOwnProperty in Hown.
    rewrite decide_True by done. by rewrite keys_pushAt.
  - assert (keyOf iteratee a ∉ keyOf iteratee <$> collection) as Hout.
    { intros Hin%groupBy_hasOwnProperty. congruence. }
    rewrite decide_False by done.
    rewrite keys_baseAssignValue_new; [by rewrite IH|].
    unfold hasOwnProperty in Hown. apply bool_decide_eq_false in Hown.
    by destruct (getProp _ _); [destruct Hown; eauto|].
Qed.

End CreationOrder.

(** *** The groups partition the list *)

Lemma filter_key_skip {A} (key : A → string) (k k' : string) (l : list A) :
  k' ≠ k →
  filter (λ a, key a = k') (filter (λ a, key a ≠ k) l)
  = filter (λ a, key a = k') l.
Proof.
  intros Hne. rewrite list_filter_filter. apply list_filter_iff.
  intros a. split; [by intros [? ?] | intros ->; by split].
Qed.

Lemma groups_Permutation {A} (key : A → string) (keys : list string) :
  ∀ l : list A,
    NoDup keys →
    (∀ a, a ∈ l → key a ∈ keys) →
    concat ((λ k, filter (λ a, key a = k) l) <$> keys) ≡ₚ l.
Proof.
  induction keys as [|k keys IH]; intros l Hnd Hall.
  - destruct l as [|a l]; [done|].
    by destruct (elem_of_nil (key a)) as [Hnil _]; destruct Hnil;
       apply Hall, list_elem_of_here.
  - apply NoDup_cons in Hnd as [Hk Hnd]. cbn.
    transitivity (filter (λ a, key a = k) l ++ filter (λ a, key a ≠ k) l);
      [|apply filter_app_complement].
    apply Permutation_app_head.
    assert ((λ k', filter (λ a, key a = k') l) <$> keys
            = (λ k', filter (λ a, key a = k')
                       (filter (λ a, key a ≠ k) l)) <$> keys) as ->.
    { apply list_fmap_ext. intros _ k' Hk'%list_elem_of_lookup_2.
      symmetry. apply filter_key_skip. by intros ->. }
    apply IH; [done|].
    intros a [Hne Ha]%list_elem_of_filter.
    by pose proof (Hall a Ha) as [?|?]%elem_of_cons.
Qed.

Lemma length_concat_sum {A} (ls : list (list A)) :
  length (concat ls) = sum_list (length <$> ls).
Proof.
  induction ls as [|l ls IH]; cbn; [done|]. by rewrite length_app, IH.
Qed.

Lemma rows_of_sections participantList :
  rows <$> (sectionOf participantList <$> roles participantList)
  = (λ k, filter (λ p, roleKey p = k) participantList)
      <$> roles participantList.
Proof. by rewrite <- list_fmap_compose. Qed.

Lemma menu_rows_Permutation participantList :
  concat (rows <$> (sectionOf participantList <$> roles participantList))
  ≡ₚ participantList.
Proof.
  rewrite rows_of_sections.
  apply groups_Permutation; [apply roles_NoDup|].
  intros p Hp. apply roles_elem_of. by exists p.
Qed.

(** X1: while the list is open the render succeeds, every participant is
    a row of exactly one section (the rows of all sections together are a
    rearrangement of the participant list), and the number in the button
    text is the sum of the sections' row counts. *)
Theorem menu_rows_partition :
  ∀ (env : Env) (render : Hooks),
    listOpen render = true →
    ∃ (view : ListView) (sections : list MenuSection),
      renderList env render = Some view
      ∧ menu view = Some sections
      ∧ concat (rows <$> sections) ≡ₚ participants env
      ∧ buttonText view
        = pretty (sum_list ((λ s, length (rows s)) <$> sections))
          +:+ " in room".
Proof.
  intros env render Hopen. unfold renderList. rewrite Hopen.
  rewrite renderMenu_sections. cbn.
  eexists _, _. split_and!; [done | done | apply menu_rows_Permutation|].
  cbn. do 2 f_equal.
  rewrite <- (Permutation_length (menu_rows_Permutation (participants env))).
  rewrite length_concat_sum. by rewrite <- list_fmap_compose.
Qed.

Lemma menu_rows_partition_witness :
  listOpen (dialogOn bob "host" false) = true
  ∧ ∃ view sections,
      renderList (room true) (dialogOn bob "host" false) = Some view
      ∧ menu view = Some sections
      ∧ concat (rows <$> sections) ≡ₚ [alice; bob; carol]
      ∧ buttonText view = "3 in room".
Proof.
  split; [reflexivity|].
  destruct (menu_rows_partition (room true) (dialogOn bob "host" false)
              eq_refl) as (view & sections & Hview & Hmenu & Hperm & Htext).
  exists view, sections. split_and!; [done | done | done |].
  clear Htext Hmenu. vm_compute in Hview. injection Hview as <-.
  reflexivity.
Defined.

(** X2: a rendered section is never empty: every section has at least
    one row, each of its rows is a participant of the list whose role key
    is the section's key, and an empty participant list renders no section
    at all. *)
Theorem sections_are_inhabited :
  ∀ (participantList : list HMSPeerWithMuteStatus)
    (sections : list MenuSection) (s : MenuSection),
    renderMenu participantList = Some sections →
    s ∈ sections →
    0 < length (rows s)
    ∧ (∀ p, p ∈ rows s → p ∈ participantList ∧ roleKey p = sectionKey s)
    ∧ renderMenu [] = Some [].
Proof.
  intros participantList sections s Hmenu Hs.
  rewrite renderMenu_sections in Hmenu. injection Hmenu as <-.
  apply list_elem_of_fmap in Hs as (role & -> & Hrole). cbn.
  split_and!; [| |done].
  - apply roles_elem_of in Hrole as (p & Hp & Hkey).
    assert (p ∈ membersOf roleOf role participantList) as Hin
      by (by apply list_elem_of_filter).
    destruct (membersOf roleOf role participantList); [|cbn; lia].
    by apply elem_of_nil in Hin.
  - intros p [Hkey Hp]%list_elem_of_filter. done.
Qed.

Lemma sections_are_inhabited_witness :
  let s := {| sectionKey := "guest"; header := "guest(1)"; rows := [bob] |} in
  (renderMenu [alice; bob; carol]
   = Some [sectionOf [alice; bob; carol] "host"; s;
           sectionOf [alice; bob; carol] "undefined"]
   ∧ s ∈ [sectionOf [alice; bob; carol] "host"; s;
          sectionOf [alice; bob; carol] "undefined"])
  ∧ 0 < length (rows s).
Proof.
  intros s.
  assert (renderMenu [alice; bob; carol]
          = Some [sectionOf [alice; bob; carol] "host"; s;
                  sectionOf [alice; bob; carol] "undefined"]) as Hmenu
    by (vm_compute; reflexivity).
  assert (s ∈ [sectionOf [alice; bob; carol] "host"; s;
               sectionOf [alice; bob; carol] "undefined"]) as Hs
    by (apply list_elem_of_further, list_elem_of_here).
  split; [by split|].
  exact (proj1 (sections_are_inhabited _ _ s Hmenu Hs)).
Defined.

(** *** The order of the groups *)

Lemma indexLe_transitive : Transitive indexLe.
Proof. intros a b c. unfold indexLe. lia. Qed.

Lemma indexLe_total : Total indexLe.
Proof. intros a b. unfold indexLe. lia. Qed.

Lemma filter_all {A} (P : A → Prop) `{∀ x, Decision (P x)} (l : list A) :
  Forall P l → filter P l = l.
Proof.
  induction 1 as [|x l Hx _ IH]; [done|].
  rewrite filter_cons, decide_True by done. by rewrite IH.
Qed.

Lemma filter_none {A} (P : A → Prop) `{∀ x, Decision (P x)} (l : list A) :
  Forall (λ x, ¬ P x) l → filter P l = [].
Proof.
  induction 1 as [|x l Hx _ IH]; [done|].
  by rewrite filter_cons, decide_False.
Qed.

(** X3: the accumulator of [groupBy] gets its keys in the order in which
    the roles first occur in the participant list.  The sections are
    rendered with the keys that are array indices first, in ascending
    numeric order, and then the other keys in first-occurrence order; so
    when no role key is an array index the sections appear in the order in
    which the roles first occur. *)
Theorem sections_in_first_occurrence_order :
  ∀ participantList : list HMSPeerWithMuteStatus,
    let created := firstOccurrences (roleKey <$> participantList) in
    (rolesMap participantList).*1 = created
    ∧ (∃ numeric,
         roles participantList
         = numeric ++ filter (λ k, ¬ isArrayIndex k) created
         ∧ numeric ≡ₚ filter isArrayIndex created
         ∧ StronglySorted indexLe numeric)
    ∧ (Forall (λ p, ¬ isArrayIndex (roleKey p)) participantList →
       roles participantList = created).
Proof.
  intros participantList created.
  assert ((rolesMap participantList).*1 = created) as Hcreated
    by apply groupBy_keys_firstOccurrences.
  split_and!; [done | |].
  - exists (merge_sort indexLe (filter isArrayIndex created)).
    unfold roles, ObjectKeys, orderKeys. rewrite Hcreated.
    split_and!; [done | apply merge_sort_Permutation|].
    apply (@StronglySorted_merge_sort _ indexLe _
             indexLe_transitive indexLe_total).
  - intros Hnone.
    assert (Forall (λ k, ¬ isArrayIndex k) created) as Hcr.
    { apply Forall_forall. intros k Hk.
      apply (proj1 (firstOccurrences_elem_of
                      (roleKey <$> participantList) k)) in Hk.
      apply list_elem_of_fmap in Hk as (p & -> & Hp).
      by apply (proj1 (Forall_forall _ _) Hnone). }
    unfold roles, ObjectKeys, orderKeys. rewrite Hcreated.
    rewrite (filter_none isArrayIndex created Hcr).
    by rewrite (filter_all (λ k, ¬ isArrayIndex k) created Hcr).
Qed.

Lemma sections_in_first_occurrence_order_witness :
  let participantList := [bob; alice; carol; mkPeer "d" (Some "guest")] in
  Forall (λ p, ¬ isArrayIndex (roleKey p)) participantList
  ∧ roles participantList = ["guest"; "host"; "undefined"].
Proof.
  intros participantList.
  assert (Forall (λ p, ¬ isArrayIndex (roleKey p)) participantList) as Hnone.
  { repeat constructor; by intros [? ?]. }
  split; [exact Hnone|].
  destruct (sections_in_first_occurrence_order participantList)
    as (_ & _ & Horder).
  rewrite (Horder Hnone). reflexivity.
Defined.

(** *** What an event outputs *)

(** The four ways [handleSaveSettings] can go. *)
Lemma handleSaveSettings_cases env render sdk h :
  handleSaveSettings env render sdk h = (Normal (), h, [])
  ∨ ∃ p,
      selectedPeer render = Some p
      ∧ selectedRole render ≠ ""
      ∧ changeRolePermitted env = true
      ∧ ((roleName p = Some (selectedRole render)
          ∧ handleSaveSettings env render sdk h = (Normal (), closed h, []))
         ∨ (roleName p ≠ Some (selectedRole render)
            ∧ sdk = Resolved
            ∧ handleSaveSettings env render sdk h
              = (Normal (), closed h,
                 [ChangeRole (id p) (selectedRole render)
                    (forceChange render)]))
         ∨ (roleName p ≠ Some (selectedRole render)
            ∧ ∃ error,
                sdk = Rejected error
                ∧ handleSaveSettings env render sdk h
                  = (Normal (), closed h,
                     [ChangeRole (id p) (selectedRole render)
                        (forceChange render);
                      Toast (message error)]))).
Proof.
  destruct (selectedPeer render) as [p|] eqn:Hp;
    [|left; unfold handleSaveSettings; by rewrite Hp].
  destruct (decide (selectedRole render = "")) as [Hr|Hr].
  { left. unfold handleSaveSettings. rewrite Hp.
    by rewrite bool_decide_eq_true_2. }
  destruct (changeRolePermitted env) eqn:Hperm.
  2: { left. unfold handleSaveSettings.
       by rewrite Hp, Hperm, orb_true_r. }
  right. exists p. split_and!; [done | done | done |].
  rewrite (handleSaveSettings_permitted env render sdk p Hp Hr Hperm).
  case_bool_decide as Hrole; run_handler.
  - right. destruct sdk as [|error]; [left | right; split; [done|]; eauto].
    split_and!; done.
  - left. split; [|done].
    destruct (decide (roleName p = Some (selectedRole render))); [done|].
    by destruct Hrole.
Qed.

Lemma dispatch_sdkCalls env e inst :
  sdkCalls (dispatch env e inst).2
  = if rendered env (hooks inst) e
    then sdkCalls (handlerOf env (hooks inst) e (hooks inst)).2
    else [].
Proof.
  unfold dispatch. destruct (rendered env (hooks inst) e); [|done].
  destruct (handlerOf env (hooks inst) e (hooks inst)) as [[c h] out].
  unfold commitEffects. cbn.
  destruct (depsChanged _ _); cbn; unfold sdkCalls; rewrite omap_app; cbn;
    [destruct (onToggle env)|]; cbn; by rewrite app_nil_r.
Qed.

Lemma dispatch_toasts env e inst :
  toasts (dispatch env e inst).2
  = if rendered env (hooks inst) e
    then toasts (handlerOf env (hooks inst) e (hooks inst)).2
    else [].
Proof.
  unfold dispatch. destruct (rendered env (hooks inst) e); [|done].
  destruct (handlerOf env (hooks inst) e (hooks inst)) as [[c h] out].
  unfold commitEffects. cbn.
  destruct (depsChanged _ _); cbn; unfold toasts; rewrite omap_app; cbn;
    [destruct (onToggle env)|]; cbn; by rewrite app_nil_r.
Qed.

(** Where a request comes from. *)
Lemma request_origin env e inst peerId role force :
  (peerId, role, force) ∈ sdkCalls (dispatch env e inst).2 →
  ∃ sdk p,
    e = ConfirmClick sdk
    ∧ selectedPeer (hooks inst) = Some p
    ∧ peerId = id p
    ∧ role = selectedRole (hooks inst)
    ∧ role ≠ ""
    ∧ roleName p ≠ Some role
    ∧ force = forceChange (hooks inst)
    ∧ changeRolePermitted env = true
    ∧ sdkCalls (dispatch env e inst).2 = [(peerId, role, force)].
Proof.
  rewrite dispatch_sdkCalls.
  destruct (rendered env (hooks inst) e); [|by intros ?%elem_of_nil].
  destruct e as [| |participant|value| | |sdk];
    try (by intros ?%elem_of_nil).
  cbn [handlerOf].
  destruct (handleSaveSettings_cases env (hooks inst) sdk (hooks inst))
    as [-> | (p & Hp & Hr & Hperm & [[Hrole ->] | [(Hrole & _ & ->)
         | (Hrole & error & _ & ->)]])]; cbn;
    try (by intros ?%elem_of_nil);
    intros Hin%list_elem_of_singleton; injection Hin as -> -> ->;
    exists sdk, p; split_and!; done.
Qed.

(** What an event does to [listOpen]. *)
Lemma dispatch_listOpen env e inst :
  listOpen (hooks (dispatch env e inst).1)
  = match e with
    | ToggleClick => negb (listOpen (hooks inst))
    | ClickAway => false
    | _ => listOpen (hooks inst)
    end.
Proof.
  rewrite dispatch_hooks.
  destruct e as [| |participant|value| | |sdk]; cbn [rendered handlerOf].
  1-2: done.
  1-4: by match goal with
          | |- context [if ?b then _ else _] => destruct b
          end.
  destruct (dialogOpen (hooks inst)); [|done].
  by destruct (handleSaveSettings_hooks env (hooks inst) sdk (hooks inst))
    as [-> | ->].
Qed.

(** X4: the open/closed state of the list changes only on a click on the
    list button, which flips it, or on a click outside an open list, which
    closes it.  No event of the dialog, a completed save included, opens
    or closes the list. *)
Theorem list_changes_only_by_list_events :
  ∀ (env : Env) (e : Event) (inst : Instance),
    listOpen (hooks (dispatch env e inst).1) ≠ listOpen (hooks inst) →
    e = ToggleClick
    ∨ (e = ClickAway
       ∧ listOpen (hooks inst) = true
       ∧ listOpen (hooks (dispatch env e inst).1) = false).
Proof.
  intros env e inst. rewrite dispatch_listOpen.
  destruct e as [| |participant|value| | |sdk]; try done; [by left|].
  intros Hchanged. right. split_and!; [done | | done].
  by destruct (listOpen (hooks inst)).
Qed.

Lemma list_changes_only_by_list_events_witness :
  let inst := session (room true) [ToggleClick; UserSettingsClick bob] in
  listOpen (hooks (dispatch (room true) ClickAway inst).1)
  ≠ listOpen (hooks inst)
  ∧ listOpen (hooks inst) = true
  ∧ selectedPeer (hooks (dispatch (room true) ClickAway inst).1)
    = Some (peer bob).
Proof.
  intros inst.
  assert (listOpen (hooks (dispatch (room true) ClickAway inst).1)
          ≠ listOpen (hooks inst)) as Hchanged
    by (vm_compute; discriminate).
  split; [exact Hchanged|].
  destruct (list_changes_only_by_list_events (room true) ClickAway inst
              Hchanged) as [Hfalse | (_ & Hopen & _)]; [discriminate|].
  split; [exact Hopen | vm_compute; reflexivity].
Defined.

(** X5: a click on the list button or outside the list leaves the dialog
    as it is: the selected peer, the pending target role and the
    skip-confirmation flag keep their values, and no request and no toast
    is output. *)
Theorem list_events_leave_dialog :
  ∀ (env : Env) (e : Event) (inst : Instance),
    e = ToggleClick ∨ e = ClickAway →
    selectedPeer (hooks (dispatch env e inst).1) = selectedPeer (hooks inst)
    ∧ selectedRole (hooks (dispatch env e inst).1)
      = selectedRole (hooks inst)
    ∧ forceChange (hooks (dispatch env e inst).1) = forceChange (hooks inst)
    ∧ sdkCalls (dispatch env e inst).2 = []
    ∧ toasts (dispatch env e inst).2 = [].
Proof.
  intros env e inst He.
  rewrite dispatch_sdkCalls, dispatch_toasts, !dispatch_hooks.
  by destruct He as [-> | ->].
Qed.

Lemma list_events_leave_dialog_witness :
  let inst := session (room true) [ToggleClick; UserSettingsClick bob;
                                   RoleSelectChange "host";
                                   ForceChangeToggle] in
  (ClickAway = ToggleClick ∨ ClickAway = ClickAway)
  ∧ hooks (dispatch (room true) ClickAway inst).1
    = {| listOpen := false; selectedPeer := Some (peer bob);
         selectedRole := "host"; forceChange := true |}
  ∧ sdkCalls (dispatch (room true) ClickAway inst).2 = [].
Proof.
  intros inst.
  assert (ClickAway = ToggleClick ∨ ClickAway = ClickAway) as He
    by (by right).
  split; [exact He|].
  destruct (list_events_leave_dialog (room true) ClickAway inst He)
    as (_ & _ & _ & Hcalls & _).
  split; [vm_compute; reflexivity | exact Hcalls].
Defined.

(** X6: an event outputs at most one role-change request, and only the
    Confirm button does: whenever a request goes out, a peer is selected,
    the viewer's role grants [changeRole], and the request carries that
    peer's id, the pending target role, which is not empty and is not the
    peer's current role, and the current skip-confirmation flag. *)
Theorem requests_are_well_formed :
  ∀ (env : Env) (e : Event) (inst : Instance)
    (peerId role : string) (force : bool),
    (peerId, role, force) ∈ sdkCalls (dispatch env e inst).2 →
    sdkCalls (dispatch env e inst).2 = [(peerId, role, force)]
    ∧ changeRolePermitted env = true
    ∧ role ≠ ""
    ∧ force = forceChange (hooks inst)
    ∧ role = selectedRole (hooks inst)
    ∧ ∃ sdk p,
        e = ConfirmClick sdk
        ∧ selectedPeer (hooks inst) = Some p
        ∧ peerId = id p
        ∧ roleName p ≠ Some role.
Proof.
  intros env e inst peerId role force Hin.
  destruct (request_origin env e inst peerId role force Hin)
    as (sdk & p & -> & Hp & -> & -> & Hr & Hrole & -> & Hperm & Hcalls).
  split_and!; try done. by exists sdk, p.
Qed.

Lemma requests_are_well_formed_witness :
  let inst := {| hooks := dialogOn bob "host" true;
                 onToggleDeps := Some true |} in
  ("b", "host", true)
    ∈ sdkCalls (dispatch (room true) (ConfirmClick Resolved) inst).2
  ∧ sdkCalls (dispatch (room true) (ConfirmClick Resolved) inst).2
    = [("b", "host", true)]
  ∧ changeRolePermitted (room true) = true.
Proof.
  intros inst.
  assert (("b", "host", true)
            ∈ sdkCalls (dispatch (room true) (ConfirmClick Resolved) inst).2)
    as Hin by (vm_compute; apply list_elem_of_here).
  split; [exact Hin|].
  destruct (requests_are_well_formed (room true) (ConfirmClick Resolved) inst
              "b" "host" true Hin) as (Hcalls & Hperm & _).
  by split.
Defined.

(** X7: a toast is shown only for a request that was made and rejected:
    whenever an event outputs a toast, the event is a click on Confirm
    whose SDK call rejects, exactly one request went out, and the toast is
    the single toast of that event, carrying the rejection's message. *)
Theorem toast_only_after_rejected_request :
  ∀ (env : Env) (e : Event) (inst : Instance) (text : string),
    text ∈ toasts (dispatch env e inst).2 →
    ∃ error p,
      e = ConfirmClick (Rejected error)
      ∧ text = message error
      ∧ toasts (dispatch env e inst).2 = [text]
      ∧ selectedPeer (hooks inst) = Some p
      ∧ sdkCalls (dispatch env e inst).2
        = [(id p, selectedRole (hooks inst), forceChange (hooks inst))].
Proof.
  intros env e inst text.
  rewrite dispatch_toasts, dispatch_sdkCalls.
  destruct (rendered env (hooks inst) e); [|by intros ?%elem_of_nil].
  destruct e as [| |participant|value| | |sdk];
    try (by intros ?%elem_of_nil).
  cbn [handlerOf].
  destruct (handleSaveSettings_cases env (hooks inst) sdk (hooks inst))
    as [-> | (p & Hp & Hr & Hperm & [[Hrole ->] | [(Hrole & _ & ->)
         | (Hrole & error & -> & ->)]])]; cbn;
    try (by intros ?%elem_of_nil).
  intros ->%list_elem_of_singleton. by exists error, p.
Qed.

Lemma toast_only_after_rejected_request_witness :
  let inst := {| hooks := dialogOn bob "host" true;
                 onToggleDeps := Some true |} in
  let e := ConfirmClick (Rejected {| message := "not allowed" |}) in
  "not allowed" ∈ toasts (dispatch (room true) e inst).2
  ∧ toasts (dispatch (room true) e inst).2 = ["not allowed"].
Proof.
  intros inst e.
  assert ("not allowed" ∈ toasts (dispatch (room true) e inst).2) as Hin
    by (vm_compute; apply list_elem_of_here).
  split; [exact Hin|].
  destruct (toast_only_after_rejected_request (room true) e inst
              "not allowed" Hin) as (error & p & _ & _ & Htoasts & _).
  exact Htoasts.
Defined.

(** *** What holds in every state a session reaches *)

Lemma dispatch_flagOnlyInDialog env e inst :
  flagOnlyInDialog (hooks inst) →
  flagOnlyInDialog (hooks (dispatch env e inst).1).
Proof.
  intros Hinv. rewrite dispatch_hooks.
  destruct (rendered env (hooks inst) e) eqn:Hrendered; [|done].
  destruct e as [| |participant|value| | |sdk]; cbn [handlerOf].
  1-4: done.
  - unfold flagOnlyInDialog. cbn. intros Hnone.
    cbn in Hrendered. unfold dialogOpen in Hrendered. rewrite Hnone in Hrendered.
    rewrite bool_decide_eq_false_2 in Hrendered; [done | by intros [? ?]].
  - done.
  - by destruct (handleSaveSettings_hooks env (hooks inst) sdk (hooks inst))
      as [-> | ->].
Qed.

Lemma session_flagOnlyInDialog env events :
  flagOnlyInDialog (hooks (session env events)).
Proof.
  unfold session.
  induction events as [|e events IH] using rev_ind; [done|].
  rewrite foldl_app. cbn. by apply dispatch_flagOnlyInDialog.
Qed.

Lemma dispatch_roleChoiceOk env e inst :
  roleChoiceOk env (hooks inst) →
  roleChoiceOk env (hooks (dispatch env e inst).1).
Proof.
  intros Hinv. rewrite dispatch_hooks.
  destruct (rendered env (hooks inst) e) eqn:Hrendered; [|done].
  destruct e as [| |participant|value| | |sdk]; cbn [handlerOf].
  1-2: done.
  - unfold roleChoiceOk. run_handler. cbn. intros p [= <-].
    destruct (roleName (peer participant)); [by right; right | by left].
  - unfold roleChoiceOk. run_handler. cbn. intros p _.
    cbn in Hrendered. apply andb_true_iff in Hrendered as [_ Hvalue].
    apply bool_decide_eq_true in Hvalue as [-> | Hvalue];
      [by left | by right; left].
  - done.
  - by intros p.
  - destruct (handleSaveSettings_hooks env (hooks inst) sdk (hooks inst))
      as [-> | ->]; [done | by intros p].
Qed.

Lemma session_roleChoiceOk env events :
  roleChoiceOk env (hooks (session env events)).
Proof.
  unfold session.
  induction events as [|e events IH] using rev_ind; [by intros p|].
  rewrite foldl_app. cbn. by apply dispatch_roleChoiceOk.
Qed.

(** X8: every dialog session starts clean.  In every state a mounted
    component can reach, the skip-confirmation flag is off while no peer is
    selected, so opening the dialog on a participant from there selects
    that peer, preselects the peer's role name (or the empty string) and
    shows the box unticked. *)
Theorem dialog_sessions_start_clean :
  ∀ (env : Env) (events : list Event) (participant : HMSPeerWithMuteStatus),
    selectedPeer (hooks (session env events)) = None →
    rendered env (hooks (session env events)) (UserSettingsClick participant)
    = true →
    forceChange (hooks (session env events)) = false
    ∧ hooks (dispatch env (UserSettingsClick participant)
               (session env events)).1
      = {| listOpen := true;
           selectedPeer := Some (peer participant);
           selectedRole := default "" (roleName (peer participant));
           forceChange := false |}.
Proof.
  intros env events participant Hclosed Hrendered.
  pose proof (session_flagOnlyInDialog env events Hclosed) as Hflag.
  split; [done|].
  rewrite dispatch_hooks, Hrendered. cbn [handlerOf]. run_handler. cbn.
  rewrite Hflag.
  cbn in Hrendered. apply andb_true_iff in Hrendered as [-> _]. done.
Qed.

Lemma dialog_sessions_start_clean_witness :
  let events := [ToggleClick; UserSettingsClick bob; RoleSelectChange "host";
                 ForceChangeToggle; DialogClose] in
  (selectedPeer (hooks (session (room true) events)) = None
   ∧ rendered (room true) (hooks (session (room true) events))
       (UserSettingsClick alice) = true)
  ∧ hooks (dispatch (room true) (UserSettingsClick alice)
             (session (room true) events)).1
    = dialogOn alice "host" false.
Proof.
  intros events.
  assert (selectedPeer (hooks (session (room true) events)) = None) as Hclosed
    by (vm_compute; reflexivity).
  assert (rendered (room true) (hooks (session (room true) events))
            (UserSettingsClick alice) = true) as Hrendered
    by (vm_compute; reflexivity).
  split; [by split|].
  exact (proj2 (dialog_sessions_start_clean (room true) events alice
                  Hclosed Hrendered)).
Defined.

(** X9: in any session of a mounted component, with the store values
    staying as they are, every role-change request asks for one of the
    available role names: the target role of a request is never a value
    outside [roleNames]. *)
Theorem requested_roles_are_available :
  ∀ (env : Env) (events : list Event) (e : Event)
    (peerId role : string) (force : bool),
    (peerId, role, force)
      ∈ sdkCalls (dispatch env e (session env events)).2 →
    role ∈ roleNames env.
Proof.
  intros env events e peerId role force Hin.
  destruct (request_origin env e _ peerId role force Hin)
    as (sdk & p & _ & Hp & _ & -> & Hr & Hrole & _).
  destruct (session_roleChoiceOk env events p Hp) as [Hempty|[Hnames|Hown]];
    done.
Qed.

Lemma requested_roles_are_available_witness :
  let events := [ToggleClick; UserSettingsClick bob;
                 RoleSelectChange "host"] in
  ("b", "host", false)
    ∈ sdkCalls (dispatch (room true) (ConfirmClick Resolved)
                  (session (room true) events)).2
  ∧ "host" ∈ roleNames (room true).
Proof.
  intros events.
  assert (("b", "host", false)
            ∈ sdkCalls (dispatch (room true) (ConfirmClick Resolved)
                          (session (room true) events)).2) as Hin
    by (vm_compute; apply list_elem_of_here).
  split; [exact Hin|].
  exact (requested_roles_are_available (room true) events
           (ConfirmClick Resolved) "b" "host" false Hin).
Defined.

End ParticipantListExtras.

(* ===================================================================== *)
(** * More properties of the video tile *)
(* ===================================================================== *)

Module VideoTileExtras.
Import VideoTile VideoTileView VideoTileFacts.
Local Open Scope float_scope.
Local Set Warnings "-inexact-float".

(** *** Shapes and sizes *)

Lemma displayShapeOf_withAspectRatio ratio props :
  displayShapeOf (withAspectRatio ratio props) = displayShapeOf props.
Proof. done. Qed.



(** X11: when the first measurement finds no parent element, a square or
    circle tile gets the container width ["undefinedpx"] while its video
    is sized for a height of one pixel; a rectangle gets no container
    width and the video the width [(w / ah) * 1]. *)
Theorem unmeasured_tile_falls_back :
  ∀ (props : VideoTileProps),
    let inst := mount props None in
    let ratio := (aspectRatioOf props inst).2 in
    heightState inst = None
    ∧ containerWidth props inst
      = (if isSquareOrCircle props inst then Some PxUndefined else None)
    ∧ Video.styleWidth (videoStyle props inst)
      = (if isSquareOrCircle props inst then Px 1
         else Px (width ratio / height ratio * 1)).
Proof.
  intros props inst ratio. split_and!; [done | |].
  - unfold containerWidth. by destruct (isSquareOrCircle props inst).
  - unfold videoStyle, videoProps, Video.getVideoStyles. cbn.
    by destruct (isSquareOrCircle props inst).
Qed.

(** *** Audio level and mirroring *)

(** X12: the audio level is shown in one place at most.  When the video
    has the glow, the level is a number other than zero and NaN, the
    stream is not muted, the two blur radii are 0.12 and 0.8 times the
    level, and the default controls are told not to show the level; and
    when the controls are told to show it, the video has no glow. *)
Theorem audio_level_glow_or_overlay :
  ∀ (inputs : ControlsInputs) (props : VideoTileProps) (inst : Instance),
    (Video.styleBoxShadow (videoStyle props inst) ≠ None →
     Controls.showAudioLevel (controlsProps inputs props) = false
     ∧ default false (isAudioMuted props) = false
     ∧ ∃ level,
         audioLevel props = Some level
         ∧ PrimFloat.eqb level 0 = false
         ∧ PrimFloat.eqb level level = true
         ∧ Video.styleBoxShadow (videoStyle props inst)
           = Some (Px (0.12 * level), Px (0.8 * level)))
    ∧ (Controls.showAudioLevel (controlsProps inputs props) = true →
       Video.styleBoxShadow (videoStyle props inst) = None).
Proof.
  intros inputs props inst.
  unfold videoStyle, videoProps, Video.getVideoStyles, controlsProps. cbn.
  destruct (default false (isAudioMuted props)) eqn:Hmuted; cbn; [done|].
  destruct (default true (showAudioLevel props)); cbn; [|done].
  destruct (audioLevel props) as [level|]; cbn; [|done].
  destruct (PrimFloat.eqb level 0) eqn:Hzero; cbn; [done|].
  destruct (PrimFloat.eqb level level) eqn:Hnan; cbn; [|done].
  destruct (default border (audioLevelDisplayType props)) eqn:Htype; cbn.
  - rewrite bool_decide_eq_true_2 by done.
    rewrite bool_decide_eq_false_2 by (by intros []).
    split; [|done]. intros _. split_and!; [done | done |].
    exists level. done.
  - rewrite bool_decide_eq_false_2 by done. done.
  - rewrite bool_decide_eq_false_2 by done. done.
Qed.

Lemma audio_level_glow_or_overlay_witness :
  let props := {| stream := Supplied 1; isLocal := None; videoSource := None;
                  audioLevel := Some 50; isAudioMuted := None;
                  showAudioLevel := None; objectFit := None;
                  aspectRatio := None; displayShape := None;
                  audioLevelDisplayType := None |} in
  let inputs := {| label := "Alice"; showAudioMuteStatus := None;
                   allowRemoteMute := None |} in
  Video.styleBoxShadow (videoStyle props initialInstance) ≠ None
  ∧ Controls.showAudioLevel (controlsProps inputs props) = false.
Proof.
  intros props inputs.
  assert (Video.styleBoxShadow (videoStyle props initialInstance) ≠ None)
    as Hglow by (vm_compute; discriminate).
  split; [exact Hglow|].
  destruct (audio_level_glow_or_overlay inputs props initialInstance)
    as [Hshown _].
  exact (proj1 (Hshown Hglow)).
Defined.

(** X13: the video is mirrored exactly when the tile is marked local and
    its source is the camera, which is also the source assumed when none
    is given; a screen share, a canvas and a remote tile are never
    mirrored. *)
Theorem mirrored_iff_local_camera :
  ∀ (props : VideoTileProps) (inst : Instance),
    (Video.styleTransform (videoStyle props inst) = Some "scale(-1, 1)"
     ↔ isLocal props = Some true
       ∧ (videoSource props = None ∨ videoSource props = Some camera))
    ∧ (Video.styleTransform (videoStyle props inst) = None
       ∨ Video.styleTransform (videoStyle props inst)
         = Some "scale(-1, 1)").
Proof.
  intros props inst.
  unfold videoStyle, videoProps, Video.getVideoStyles. cbn.
  destruct (isLocal props) as [[]|]; cbn.
  2-3: by split; [split; [|intros [? _]] | left].
  destruct (videoSource props) as [[]|]; cbn.
  - rewrite bool_decide_eq_false_2 by (by intros [=]).
    split; [|by left]. split; [done|]. by intros [_ [?|?]].
  - rewrite bool_decide_eq_true_2 by done.
    split; [|by right]. split; [|done]. intros _. split; [done | by right].
  - rewrite bool_decide_eq_false_2 by (by intros [=]).
    split; [|by left]. split; [done|]. by intros [_ [?|?]].
  - rewrite bool_decide_eq_true_2 by done.
    split; [|by right]. split; [|done]. intros _. split; [done | by left].
Qed.

(** *** When the height is measured *)






Lemma commit_literalsPast props measured inst :
  callerHeld props → literalsPast inst →
  literalsPast (commit props measured inst).
Proof.
  intros Hheld Hpast last k. unfold commit. cbn. intros [= <-].
  unfold depsOf, aspectRatioOf, callerHeld in *. cbn.
  destruct (aspectRatio props) as [[[address|render] ratio]|]; cbn;
    [done | done |].
  intros [= <-]. lia.
Qed.

Lemma renderAll_literalsPast steps :
  Forall (λ step, callerHeld step.1) steps → literalsPast (renderAll steps).
Proof.
  unfold renderAll.
  induction steps as [|step steps IH] using rev_ind; intros Hheld.
  - by intros last k.
  - apply Forall_app in Hheld as [Hsteps Hstep].
    apply (proj1 (Forall_singleton _ _)) in Hstep.
    rewrite foldl_app. cbn.
    apply commit_literalsPast; [exact Hstep | by apply IH].
Qed.

(** X15: a tile rendered without an [aspectRatio] prop measures its
    height again in every render, whatever was rendered before: the
    default aspect-ratio object is a new one each time. *)
Theorem default_aspectRatio_measures_every_render :
  ∀ (steps : list (VideoTileProps * option float))
    (props : VideoTileProps) (measured : option float),
    Forall (λ step, callerHeld step.1) steps →
    aspectRatio props = None →
    heightState (commit props measured (renderAll steps)) = measured.
Proof.
  intros steps props measured Hheld Hnone.
  pose proof (renderAll_literalsPast steps Hheld) as Hpast.
  unfold commit, measures. cbn.
  destruct (measureDeps (renderAll steps)) as [last|] eqn:Hlast; [|done].
  rewrite bool_decide_eq_true_2; [done|]. intros ->.
  specialize (Hpast _ (renders (renderAll steps)) Hlast).
  unfold depsOf, aspectRatioOf in Hpast. rewrite Hnone in Hpast.
  cbn in Hpast. specialize (Hpast eq_refl). lia.
Qed.

Lemma default_aspectRatio_measures_every_render_witness :
  let props := {| stream := Supplied 1; isLocal := None; videoSource := None;
                  audioLevel := None; isAudioMuted := None;
                  showAudioLevel := None; objectFit := None;
                  aspectRatio := None; displayShape := None;
                  audioLevelDisplayType := None |} in
  (Forall (λ step, callerHeld step.1) [(props, Some 10); (props, Some 20)]
   ∧ aspectRatio props = None)
  ∧ heightState
      (commit props (Some 30) (renderAll [(props, Some 10); (props, Some 20)]))
    = Some 30.
Proof.
  intros props.
  assert (Forall (λ step : VideoTileProps * option float, callerHeld step.1)
            [(props, Some 10); (props, Some 20)]) as Hheld
    by (repeat constructor).
  split; [by split|].
  exact (default_aspectRatio_measures_every_render
           [(props, Some 10); (props, Some 20)] props (Some 30) Hheld eq_refl).
Defined.

End VideoTileExtras.
